(** * Heuristic resume parser (pdfParser.js): model and properties

    The parser works on JavaScript strings, i.e. sequences of UTF-16 code
    units, and drives almost every decision through a regular expression.
    The development has four parts:

    - [JS]: strings as lists of code units and the String / RegExp methods
      the parser calls ([split], [trim], [match], [replace], [test], ...),
      with a backtracking matcher that follows the priority order of the
      ECMAScript matcher;
    - [Parser]: the functions of the source file, one definition each;
    - [Spec]: what the specification says, in definitions that do not go
      through regular expressions, and the inputs of the examples;
    - [Properties]: the lemmas and the properties of the parser. *)

From Stdlib Require Import String Ascii.
From Stdlib Require Import List NArith Bool Arith Lia.
Import ListNotations.


(* ================================================================== *)
(** ** JavaScript strings *)
(* ================================================================== *)

Module JS.

(** A code unit and a string. *)
Abbreviation char := N (only parsing).
Definition str := list char.

(** An ASCII literal of the source, as code units. *)
Definition lit (s : string) : str :=
  map N_of_ascii (list_ascii_of_string s).

Definition LF : char := 10%N.        (* '\n' *)
Definition SP : char := 32%N.        (* ' '  *)
Definition COLON : char := 58%N.     (* ':'  *)
Definition BULLET : char := 8226%N.  (* U+2022 *)
Definition EN_DASH : char := 8211%N. (* U+2013 *)
Definition EM_DASH : char := 8212%N. (* U+2014 *)

Definition in_range (lo hi c : char) : bool := ((lo <=? c) && (c <=? hi))%N.

(** WhiteSpace and LineTerminator code points: what [\s] matches and what
    [trim] strips. *)
Definition is_line_terminator (c : char) : bool :=
  ((c =? 10) || (c =? 13) || (c =? 8232) || (c =? 8233))%N.

Definition is_space (c : char) : bool :=
  (in_range 9 13 c || (c =? 32) || (c =? 160) || (c =? 5760)
   || in_range 8192 8202 c || (c =? 8232) || (c =? 8233) || (c =? 8239)
   || (c =? 8287) || (c =? 12288) || (c =? 65279))%N.

Definition is_digit (c : char) : bool := in_range 48 57 c.
Definition is_upper (c : char) : bool := in_range 65 90 c.
Definition is_lower (c : char) : bool := in_range 97 122 c.

(** [\w], also the class behind [\b]. *)
Definition is_word (c : char) : bool :=
  (is_upper c || is_lower c || is_digit c || (c =? 95))%N.

Definition to_upper (c : char) : char := if is_lower c then (c - 32)%N else c.
Definition to_lower (c : char) : char := if is_upper c then (c + 32)%N else c.

Definition str_eqb (a b : str) : bool :=
  if list_eq_dec N.eq_dec a b then true else false.

(** [s.length] *)
Definition len (s : str) : nat := List.length s.

(** [Boolean(s)] for a string: the empty string is falsy. *)
Definition truthy (s : str) : bool :=
  match s with [] => false | _ => true end.

(** [s.trim()] *)
Fixpoint trim_start (s : str) : str :=
  match s with
  | c :: s' => if is_space c then trim_start s' else s
  | [] => []
  end.

Definition trim_end (s : str) : str := rev (trim_start (rev s)).
Definition trim (s : str) : str := trim_end (trim_start s).

(** [s.split(c)] for a separator of one code unit. *)
Fixpoint split_chr (c : char) (s : str) : list str :=
  match s with
  | [] => [[]]
  | x :: s' =>
      if (x =? c)%N then [] :: split_chr c s'
      else match split_chr c s' with
           | h :: t => (x :: h) :: t
           | [] => [[x]]
           end
  end.

(** [a.join(sep)] *)
Fixpoint join (sep : str) (l : list str) : str :=
  match l with
  | [] => []
  | [x] => x
  | x :: l' => x ++ sep ++ join sep l'
  end.

(** [a.filter(Boolean)] on an array of strings. *)
Definition filter_Boolean (l : list str) : list str := filter truthy l.

(** [a.slice(i, j)] for non-negative indices; [j] may exceed the length. *)
Definition slice {A} (i j : nat) (l : list A) : list A := skipn i (firstn j l).

(** [s.includes(t)] *)
Fixpoint starts_with (t s : str) : bool :=
  match t, s with
  | [], _ => true
  | a :: t', b :: s' => (a =? b)%N && starts_with t' s'
  | _ :: _, [] => false
  end.

Fixpoint includes (s t : str) : bool :=
  starts_with t s ||
  match s with
  | [] => false
  | _ :: s' => includes s' t
  end.

(** [a.findIndex(p)], with [None] for -1. *)
Fixpoint findIndex {A} (p : A -> bool) (l : list A) : option nat :=
  match l with
  | [] => None
  | x :: l' => if p x then Some 0 else option_map S (findIndex p l')
  end.

(** [Array.from(new Set(a))]: a Set keeps the first insertion of each
    value, in insertion order. *)
Fixpoint set_add (x : str) (seen : list str) : list str :=
  match seen with
  | [] => [x]
  | y :: seen' => if str_eqb x y then seen else y :: set_add x seen'
  end.

Definition array_from_set (l : list str) : list str :=
  fold_left (fun seen x => set_add x seen) l [].

(* ------------------------------------------------------------------ *)
(** *** Regular expressions *)

Inductive citem : Type :=
| CChar (c : char)            (* a literal member *)
| CRange (lo hi : char)       (* a-z *)
| CDigit                      (* \d *)
| CWord                       (* \w *)
| CSpace.                     (* \s *)

Inductive regex : Type :=
| Eps
| Chr (c : char)                          (* a literal character *)
| Cls (negated : bool) (items : list citem) (* [...] and [^...] *)
| Dot                                     (* . *)
| Seq (r1 r2 : regex)
| Alt (r1 r2 : regex)                     (* r1|r2, r1 tried first *)
| Star (r : regex)                        (* greedy r* *)
| Bol                                     (* ^ *)
| Eol                                     (* $ *)
| WordB.                                  (* \b *)

(** Derived forms. *)
Definition Plus (r : regex) : regex := Seq r (Star r).
Definition Opt (r : regex) : regex := Alt r Eps.
Fixpoint Str (s : str) : regex :=
  match s with
  | [] => Eps
  | [c] => Chr c
  | c :: s' => Seq (Chr c) (Str s')
  end.
Definition Word (s : string) : regex := Str (lit s).
Fixpoint Alts (rs : list regex) : regex :=
  match rs with
  | [] => Eps
  | [r] => r
  | r :: rs' => Alt r (Alts rs')
  end.
Fixpoint Seqs (rs : list regex) : regex :=
  match rs with
  | [] => Eps
  | [r] => r
  | r :: rs' => Seq r (Seqs rs')
  end.
(** r{n,} *)
Fixpoint AtLeast (n : nat) (r : regex) : regex :=
  match n with
  | O => Star r
  | S k => Seq r (AtLeast k r)
  end.
(** r{0,n}, greedy *)
Fixpoint AtMost (n : nat) (r : regex) : regex :=
  match n with
  | O => Eps
  | S k => Opt (Seq r (AtMost k r))
  end.

(** The flags that change how a pattern matches. *)
Record flags : Type := Flags { ignoreCase : bool; multiline : bool }.

(** Canonicalize of the matcher without the u flag.  The patterns of the
    parser that carry the i flag have ASCII members only, and a code unit
    outside ASCII never canonicalizes to an ASCII one, so case folding is
    the ASCII one. *)
Definition canon (f : flags) (c : char) : char :=
  if ignoreCase f then to_upper c else c.

Definition citem_mem (it : citem) (c : char) : bool :=
  match it with
  | CChar a => (a =? c)%N
  | CRange lo hi => in_range lo hi c
  | CDigit => is_digit c
  | CWord => is_word c
  | CSpace => is_space c
  end.

(** A member of the class has the same canonical form as [c]. *)
Definition class_mem (f : flags) (items : list citem) (c : char) : bool :=
  if ignoreCase f
  then existsb (fun it => citem_mem it c || citem_mem it (to_upper c)
                          || citem_mem it (to_lower c)) items
  else existsb (fun it => citem_mem it c) items.

(** A position in the input: the code unit just before it, if any, and the
    input that remains. *)
Definition pos : Type := option char * str.

Definition word_before (p : pos) : bool :=
  match fst p with Some c => is_word c | None => false end.
Definition word_after (p : pos) : bool :=
  match snd p with c :: _ => is_word c | [] => false end.

Definition one (ok : char -> bool) (p : pos) : list pos :=
  match snd p with
  | c :: s' => if ok c then [(Some c, s')] else []
  | [] => []
  end.

Definition guard (b : bool) (p : pos) : list pos := if b then [p] else [].

(** Greedy iteration; an iteration that consumes nothing is rejected. *)
Fixpoint star_loop (step : pos -> list pos) (fuel : nat) (p : pos) : list pos :=
  match fuel with
  | O => [p]
  | S k =>
      flat_map (fun q => if len (snd q) <? len (snd p)
                         then star_loop step k q else []) (step p)
      ++ [p]
  end.

(** All the positions where a match of [r] that starts at [p] can end, in
    the order in which the backtracking matcher tries them. *)
Fixpoint ends (f : flags) (r : regex) (p : pos) : list pos :=
  match r with
  | Eps => [p]
  | Chr a => one (fun c => (canon f a =? canon f c)%N) p
  | Cls neg items => one (fun c => xorb neg (class_mem f items c)) p
  | Dot => one (fun c => negb (is_line_terminator c)) p
  | Seq r1 r2 => flat_map (ends f r2) (ends f r1 p)
  | Alt r1 r2 => ends f r1 p ++ ends f r2 p
  | Star r1 => star_loop (ends f r1) (len (snd p)) p
  | Bol =>
      guard (match fst p with
             | None => true
             | Some c => multiline f && is_line_terminator c
             end) p
  | Eol =>
      guard (match snd p with
             | [] => true
             | c :: _ => multiline f && is_line_terminator c
             end) p
  | WordB => guard (xorb (word_before p) (word_after p)) p
  end.

(** The match the matcher returns at [p]: the first one in priority order. *)
Definition match_at (f : flags) (r : regex) (p : pos) : option pos :=
  match ends f r p with
  | q :: _ => Some q
  | [] => None
  end.

(** The result of a successful search: the text before the match, the
    matched text, and the position right after it. *)
Record found : Type := Found { before : str; matched : str; after : pos }.

Definition consumed (s : str) (q : pos) : str := firstn (len s - len (snd q)) s.

(** The search loop of RegExpBuiltinExec from position [p] on: every start
    index up to and including the end of the input, leftmost first. *)
Fixpoint search (f : flags) (r : regex) (pre : str) (prev : option char)
         (s : str) : option found :=
  match match_at f r (prev, s) with
  | Some q => Some (Found pre (consumed s q) q)
  | None =>
      match s with
      | [] => None
      | c :: s' => search f r (pre ++ [c]) (Some c) s'
      end
  end.

(** [re.test(s)] for a pattern without the g and y flags. *)
Definition test (f : flags) (r : regex) (s : str) : bool :=
  match search f r [] None s with Some _ => true | None => false end.

(** [s.match(re)[0]] for a pattern without the g flag; [None] is null. *)
Definition str_match (f : flags) (r : regex) (s : str) : option str :=
  option_map matched (search f r [] None s).

(** The loop shared by [match] and [replace] with the g flag: the matches
    from left to right with the text that separates them, and the tail. *)
Fixpoint scan (fuel : nat) (f : flags) (r : regex) (prev : option char)
         (s : str) : list (str * str) * str :=
  match fuel with
  | O => ([], s)
  | S k =>
      match search f r [] prev s with
      | None => ([], s)
      | Some m =>
          match matched m, snd (after m) with
          | [], [] => ([(before m, [])], [])
          | [], c :: s' =>
              (* empty match: lastIndex is advanced by one *)
              let '(ms, tl) := scan k f r (Some c) s' in
              ((before m, []) :: match ms with
                                 | (b, x) :: ms' => (c :: b, x) :: ms'
                                 | [] => []
                                 end,
               match ms with [] => c :: tl | _ => tl end)
          | _ :: _, _ =>
              let '(ms, tl) := scan k f r (fst (after m)) (snd (after m)) in
              ((before m, matched m) :: ms, tl)
          end
      end
  end.

(** [s.match(re)] with the g flag: all the matches, [None] when there is
    none. *)
Definition str_match_all (f : flags) (r : regex) (s : str) : option (list str) :=
  match fst (scan (S (len s)) f r None s) with
  | [] => None
  | ms => Some (map snd ms)
  end.

(** [s.match(re) || []] *)
Definition or_empty (o : option (list str)) : list str :=
  match o with Some l => l | None => [] end.

(** [s.replace(re, fn)] with the g flag. *)
Definition replace_all (f : flags) (r : regex) (fn : str -> str) (s : str) : str :=
  let '(ms, tl) := scan (S (len s)) f r None s in
  concat (map (fun bm => fst bm ++ fn (snd bm)) ms) ++ tl.

(** [s.replace(re, fn)] without the g flag: the first match only. *)
Definition replace_first (f : flags) (r : regex) (fn : str -> str) (s : str) : str :=
  match search f r [] None s with
  | Some m => before m ++ fn (matched m) ++ snd (after m)
  | None => s
  end.

(** [s.split(re)] for a pattern without capture groups. *)
Fixpoint split_loop (fuel : nat) (f : flags) (r : regex) (prev : option char)
         (piece : str) (s : str) : list str :=
  match fuel with
  | O => [piece ++ s]
  | S k =>
      match s with
      | [] => [piece]
      | c :: s' =>
          match match_at f r (prev, s) with
          | Some q =>
              if (len (snd q) =? len s) && negb (truthy piece)
              then split_loop k f r (Some c) (piece ++ [c]) s'
              else piece :: split_loop k f r (fst q) [] (snd q)
          | None => split_loop k f r (Some c) (piece ++ [c]) s'
          end
      end
  end.

Definition split_re (f : flags) (r : regex) (s : str) : list str :=
  match s with
  | [] => match match_at f r (None, []) with Some _ => [] | None => [[]] end
  | _ => split_loop (2 * len s + 1) f r None [] s
  end.

(** *** RegExp objects

    A RegExp object carries, besides its pattern and flags, the mutable
    [lastIndex] that [test] reads and writes when the g flag is set. *)
Record RegExp : Type := MkRegExp {
  source : regex;
  re_flags : flags;
  global : bool;
  lastIndex : nat
}.

(** A regular expression literal: a fresh object each time it is
    evaluated. *)
Definition literal (r : regex) (f : flags) (g : bool) : RegExp :=
  MkRegExp r f g 0.

Definition set_lastIndex (R : RegExp) (i : nat) : RegExp :=
  MkRegExp (source R) (re_flags R) (global R) i.

Definition last_opt (s : str) : option char :=
  match rev s with c :: _ => Some c | [] => None end.

(** [R.test(s)]: RegExpBuiltinExec.  Without the g flag the search starts
    at 0 and [lastIndex] is left alone; with it the search starts at
    [lastIndex], which then becomes the end of the match, or 0 on failure. *)
Definition RegExp_test (R : RegExp) (s : str) : bool * RegExp :=
  if global R then
    if len s <? lastIndex R then (false, set_lastIndex R 0)
    else
      match search (re_flags R) (source R) (firstn (lastIndex R) s)
                   (last_opt (firstn (lastIndex R) s)) (skipn (lastIndex R) s) with
      | Some m => (true, set_lastIndex R (len s - len (snd (after m))))
      | None => (false, set_lastIndex R 0)
      end
  else (test (re_flags R) (source R) s, R).

End JS.

(* ================================================================== *)
(** ** The parser *)
(* ================================================================== *)

Module Parser.
Import JS.

(** *** Values and errors

    An array element or a [match] result may be [undefined] / [null]
    ([None]); reading a property of it throws a TypeError. *)
Inductive result (A : Type) : Type :=
| Ok (a : A)
| TypeError.
Arguments Ok {A} a.
Arguments TypeError {A}.

Definition bind {A B} (m : result A) (k : A -> result B) : result B :=
  match m with
  | Ok a => k a
  | TypeError => TypeError
  end.

Notation "x <- m ;; k" := (bind m (fun x => k))
  (at level 61, m at next level, right associativity).

Definition value : Type := option str.

(** [v.length], [v.match(re)] and [m[0]] on a value that may be undefined
    or null. *)
Definition length_of (v : value) : result nat :=
  match v with Some s => Ok (len s) | None => TypeError end.
Definition match_of (v : value) (f : flags) (r : regex) : result (option str) :=
  match v with Some s => Ok (str_match f r s) | None => TypeError end.
Definition index_of (m : option str) : result str :=
  match m with Some s => Ok s | None => TypeError end.

(** [Boolean(v)] and [v || ''] *)
Definition value_truthy (v : value) : bool :=
  match v with Some s => truthy s | None => false end.
Definition or_str (v : value) (d : str) : str :=
  match v with
  | Some s => if truthy s then s else d
  | None => d
  end.
(** ToString, as applied to the argument of [includes]. *)
Definition to_string (v : value) : str :=
  match v with Some s => s | None => lit "undefined" end.

(** *** The records of the result *)
Record ContactInfo : Type := MkContact {
  email : str; phone : str; location : str; links : list str }.
Record EducationEntry : Type := MkEducation {
  degree : str; institution : str; period : str; details : str }.
Record ExperienceEntry : Type := MkExperience {
  company : str; role : str; x_period : str; bullets : list str }.
Record ProjectEntry : Type := MkProject {
  p_name : str; description : str; tech : list str; link : str }.
Record ResumeRecord : Type := MkResume {
  name : str; title : value; contact : ContactInfo; summary : str;
  skills : list str; education : list EducationEntry;
  experience : list ExperienceEntry; projects : list ProjectEntry }.

(** *** Patterns *)
Definition ch (a : ascii) : char := N_of_ascii a.
Definition fl : flags := Flags false false.
Definition fl_i : flags := Flags true false.
Definition fl_m : flags := Flags false true.
Definition fl_im : flags := Flags true true.

Definition AZ := CRange (ch "A") (ch "Z").
Definition az := CRange (ch "a") (ch "z").
Definition d09 := CRange (ch "0") (ch "9").
Definition digit : regex := Cls false [CDigit].
Definition space : regex := Cls false [CSpace].
(** [[^\s)]]+ *)
Definition url_tail : regex := Plus (Cls true [CSpace; CChar (ch ")")]).
(** [[-•]] *)
Definition marker : regex := Cls false [CChar (ch "-"); CChar BULLET].

(** /[A-Z0-9._%+-]+@[A-Z0-9.-]+\.[A-Z]{2,}/im *)
Definition email_re : regex :=
  Seqs [Plus (Cls false [AZ; d09; CChar (ch "."); CChar (ch "_"); CChar (ch "%");
                         CChar (ch "+"); CChar (ch "-")]);
        Chr (ch "@");
        Plus (Cls false [AZ; d09; CChar (ch "."); CChar (ch "-")]);
        Chr (ch ".");
        AtLeast 2 (Cls false [AZ])].

(** /(\+?\d[\d\s\-().]{7,}\d)/m *)
Definition phone_re : regex :=
  Seqs [Opt (Chr (ch "+")); digit;
        AtLeast 7 (Cls false [CDigit; CSpace; CChar (ch "-"); CChar (ch "(");
                              CChar (ch ")"); CChar (ch ".")]);
        digit].

(** /\b([A-Z][a-zA-Z]+(?:,\s*[A-Z][a-zA-Z]+)+)\b/ ; the group spans the
    whole match, the two [\b] being of width zero. *)
Definition location_re : regex :=
  Seqs [WordB; Cls false [AZ]; Plus (Cls false [az; AZ]);
        Plus (Seqs [Chr (ch ","); Star space; Cls false [AZ]; Plus (Cls false [az; AZ])]);
        WordB].

(** /https?:\/\/[^\s)]+/ *)
Definition http_re : regex :=
  Seqs [Word "http"; Opt (Chr (ch "s")); Word "://"; url_tail].
(** /\bwww\.[^\s)]+/ *)
Definition www_re : regex := Seqs [WordB; Word "www."; url_tail].
(** /\bgithub\.com\/[^\s)]+/ *)
Definition github_re : regex := Seqs [WordB; Word "github.com/"; url_tail].
(** /\blinkedin\.com\/[^\s)]+/ *)
Definition linkedin_re : regex := Seqs [WordB; Word "linkedin.com/"; url_tail].
(** /\bportfolio\.[^\s)]+/ *)
Definition portfolio_re : regex := Seqs [WordB; Word "portfolio."; url_tail].

(** /(email|phone|linkedin|github|summary|objective|experience|education|projects)/i *)
Definition title_words : list string :=
  ["email"; "phone"; "linkedin"; "github"; "summary"; "objective";
   "experience"; "education"; "projects"]%string.
Definition title_re : regex := Alts (map Word title_words).

(** /^(email|contact|skills|education|experience|projects|summary|objective)\b/i *)
Definition name_skip_re : regex :=
  Seqs [Bol;
        Alts (map Word ["email"; "contact"; "skills"; "education"; "experience";
                        "projects"; "summary"; "objective"]%string);
        WordB].
(** /^[A-Za-z .'-]+$/ *)
Definition name_shape_re : regex :=
  Seqs [Bol;
        Plus (Cls false [AZ; az; CChar (ch " "); CChar (ch "."); CChar (ch "'");
                         CChar (ch "-")]);
        Eol].
(** /\s{2,}/ *)
Definition spaces2_re : regex := AtLeast 2 space.

(** /(skills|technical skills)/i *)
Definition skills_header : regex := Alts (map Word ["skills"; "technical skills"]%string).
(** /[\n•,;]+/ *)
Definition skills_sep : regex :=
  Plus (Cls false [CChar LF; CChar BULLET; CChar (ch ","); CChar (ch ";")]).
(** /^(skills|technical skills)$/i *)
Definition skills_bare : regex := Seqs [Bol; skills_header; Eol].
(** /[,;•]+/ *)
Definition item_sep : regex :=
  Plus (Cls false [CChar (ch ","); CChar (ch ";"); CChar BULLET]).

(** /(education|academics|academic background)/i *)
Definition education_header : regex :=
  Alts (map Word ["education"; "academics"; "academic background"]%string).
(** /^(education|academics)/i *)
Definition education_skip : regex :=
  Seqs [Bol; Alts (map Word ["education"; "academics"]%string)].
(** /(\bB\.?Tech|B\.?E|B\.?Sc|M\.?Tech|M\.?E|M\.?Sc|Bachelor|Master|Diploma|Ph\.?D)/i *)
Definition dot_opt : regex := Opt (Chr (ch ".")).
Definition degree_re : regex :=
  Alts [Seqs [WordB; Word "B"; dot_opt; Word "Tech"];
        Seqs [Word "B"; dot_opt; Word "E"];
        Seqs [Word "B"; dot_opt; Word "Sc"];
        Seqs [Word "M"; dot_opt; Word "Tech"];
        Seqs [Word "M"; dot_opt; Word "E"];
        Seqs [Word "M"; dot_opt; Word "Sc"];
        Word "Bachelor"; Word "Master"; Word "Diploma";
        Seqs [Word "Ph"; dot_opt; Word "D"]].
(** /university|college|institute|school/i *)
Definition institution_re : regex :=
  Alts (map Word ["university"; "college"; "institute"; "school"]%string).
(** /\b(20\d{2}).{0,n}(\b20\d{2}\b|present|current)/i *)
Definition year : regex := Seqs [Word "20"; digit; digit].
Definition years_re (n : nat) : regex :=
  Seqs [WordB; year; AtMost n Dot;
        Alts [Seqs [WordB; year; WordB]; Word "present"; Word "current"]].

(** /(experience|work experience|professional experience)/i *)
Definition experience_header : regex :=
  Alts (map Word ["experience"; "work experience"; "professional experience"]%string).
(** /^(experience|work experience|professional experience)$/i *)
Definition experience_bare : regex := Seqs [Bol; experience_header; Eol].
(** /[–-]/ *)
Definition dash_re : regex := Cls false [CChar EN_DASH; CChar (ch "-")].
(** /at|@| - | – |—/ *)
Definition connector_re : regex :=
  Alts [Word "at"; Word "@"; Word " - ";
        Seqs [Chr SP; Chr EN_DASH; Chr SP]; Chr EM_DASH].
(** /intern|engineer|developer|manager|lead/i *)
Definition role_words : list string :=
  ["intern"; "engineer"; "developer"; "manager"; "lead"]%string.
Definition role_re : regex := Alts (map Word role_words).
(** /[-–—]| at | @ /i *)
Definition parts_sep : regex :=
  Alts [Cls false [CChar (ch "-"); CChar EN_DASH; CChar EM_DASH];
        Word " at "; Word " @ "].
(** /intern|engineer|developer|manager|lead|analyst|consultant/i *)
Definition role_part_re : regex :=
  Alts (map Word (role_words ++ ["analyst"; "consultant"]%string)).
(** /^[-•]/ *)
Definition marker_start : regex := Seqs [Bol; marker].
(** /^[-•]\s?/ *)
Definition marker_strip : regex := Seqs [Bol; marker; Opt space].

(** /(projects|personal projects)/i *)
Definition projects_header : regex := Alts (map Word ["projects"; "personal projects"]%string).
(** /^(projects|personal projects)$/i *)
Definition projects_bare : regex := Seqs [Bol; projects_header; Eol].
(** /^[A-Z][A-Za-z0-9 ._-]{2,}$/ *)
Definition project_title_re : regex :=
  Seqs [Bol; Cls false [AZ];
        AtLeast 2 (Cls false [AZ; az; d09; CChar (ch " "); CChar (ch ".");
                              CChar (ch "_"); CChar (ch "-")]);
        Eol].
(** /tech|stack|tools/i *)
Definition tech_re : regex := Alts (map Word ["tech"; "stack"; "tools"]%string).
(** /:|-/ *)
Definition colon_dash : regex := Alts [Chr COLON; Chr (ch "-")].
(** /https?:\/\/|github\.com|demo|live/i *)
Definition link_line_re : regex :=
  Alts [Seqs [Word "http"; Opt (Chr (ch "s")); Word "://"];
        Word "github.com"; Word "demo"; Word "live"].

(** /(summary|objective|about)/i *)
Definition summary_header : regex := Alts (map Word ["summary"; "objective"; "about"]%string).
(** /^(summary|objective|about)\s*:?/i *)
Definition summary_strip : regex :=
  Seqs [Bol; summary_header; Star space; Opt (Chr COLON)].
(** /[.!]$/ *)
Definition sentence_end : regex := Seqs [Cls false [CChar (ch "."); CChar (ch "!")]; Eol].

(** The header keywords that bound a section:
    /^(skills|technical skills|...|certifications|awards)\b/i *)
Definition boundary_words : list string :=
  ["skills"; "technical skills"; "experience"; "work experience";
   "professional experience"; "education"; "academics"; "projects";
   "personal projects"; "summary"; "objective"; "about"; "certifications";
   "awards"]%string.
Definition boundary_re : regex := Seqs [Bol; Alts (map Word boundary_words); WordB].

(** /\s+/ and /\b\w/ *)
Definition spaces_re : regex := Plus space.
Definition word_start : regex := Seqs [WordB; Cls false [CWord]].

(** *** findSection *)

(** The [forEach] that collects the indexes of the lines [headerRegex]
    accepts; the same RegExp object is used for every line. *)
Fixpoint header_indexes (R : RegExp) (idx : nat) (lines : list str)
  : list nat * RegExp :=
  match lines with
  | [] => ([], R)
  | l :: ls =>
      let '(hit, R1) := RegExp_test R l in
      let '(rest, R2) := header_indexes R1 (S idx) ls in
      (if hit then idx :: rest else rest, R2)
  end.

(** The [for] loop from [i] on, [ls] being the lines from index [i]: the
    index of the first line that starts with a header keyword, or
    [lines.length]. *)
Fixpoint section_end (i : nat) (ls : list str) : nat :=
  match ls with
  | [] => i
  | l :: ls' => if test fl_i boundary_re l then i else section_end (S i) ls'
  end.

Definition findSection (text : str) (headerRegex : RegExp) : str * RegExp :=
  let lines := split_chr LF text in
  let '(indexes, R') := header_indexes headerRegex 0 lines in
  match indexes with
  | [] => ([], R')
  | start :: _ =>
      let end_ := section_end (start + 1) (skipn (start + 1) lines) in
      (trim (join [LF] (slice start end_ lines)), R')
  end.

(** *** cap *)
Definition toUpperCase (s : str) : str := map to_upper s.

Definition cap (s : str) : str :=
  replace_all fl word_start toUpperCase
    (trim (replace_all fl spaces_re (fun _ => [SP]) s)).

(** *** guessNameFromText *)
Fixpoint guess_loop (ls : list str) : str :=
  match ls with
  | [] => []
  | l :: ls' =>
      if negb (truthy l) then guess_loop ls'
      else if test fl_i name_skip_re l then guess_loop ls'
      else if (List.length (split_chr SP l) <=? 6) && test fl name_shape_re l
           then trim (replace_all fl spaces2_re (fun _ => [SP]) l)
           else guess_loop ls'
  end.

Definition guessNameFromText (lines : list str) : str :=
  guess_loop (firstn (Nat.min 5 (List.length lines)) lines).

(** *** extractSkills *)
Definition section_lines (section : str) : list str :=
  filter_Boolean (map trim (split_chr LF section)).

Definition split_items (s : str) : list str :=
  filter_Boolean (map trim (split_re fl item_sep s)).

Definition expand_skill (r : str) : list str :=
  let afterColon :=
    if includes r [COLON] then join [COLON] (skipn 1 (split_chr COLON r)) else r in
  split_items afterColon.

Definition extractSkills (text : str) : list str :=
  let section := fst (findSection text (literal skills_header fl_i false)) in
  if negb (truthy section) then []
  else
    let raw := filter_Boolean (map trim (split_re fl skills_sep section)) in
    let filtered := filter (fun r => negb (test fl_i skills_bare r)) raw in
    let expanded := flat_map expand_skill filtered in
    array_from_set (map cap expanded).

(** *** extractEducation

    The state of the [forEach]: the entries pushed so far and the [current]
    cursor ([None] is null). *)
Definition fresh_education : EducationEntry := MkEducation [] [] [] [].

Definition or_fresh {A} (current : option A) (fresh : A) : A :=
  match current with Some c => c | None => fresh end.

Definition push {A} (entries : list A) (current : option A) : list A :=
  match current with Some c => entries ++ [c] | None => entries end.

Definition education_step (st : list EducationEntry * option EducationEntry)
           (l : str) : list EducationEntry * option EducationEntry :=
  let '(entries, current) := st in
  if test fl_i education_skip l then st
  else if test fl_i degree_re l then
    (push entries current, Some (MkEducation l [] [] []))
  else if test fl_i institution_re l then
    let c := or_fresh current fresh_education in
    (entries,
     Some (MkEducation (degree c)
             (if truthy (institution c) then institution c ++ [SP] ++ l else l)
             (period c) (details c)))
  else if test fl_i (years_re 5) l then
    let c := or_fresh current fresh_education in
    (entries, Some (MkEducation (degree c) (institution c) l (details c)))
  else
    let c := or_fresh current fresh_education in
    (entries,
     Some (MkEducation (degree c) (institution c) (period c)
             ((if truthy (details c) then details c ++ [SP] else []) ++ l))).

Definition or2 (a b : str) : str := if truthy a then a else b.

Definition finish_education (e : EducationEntry) : EducationEntry :=
  MkEducation (or2 (degree e) (or2 (details e) []))
              (or2 (institution e) [])
              (or2 (period e) [])
              (or2 (details e) []).

Definition extractEducation (text : str) : list EducationEntry :=
  let section := fst (findSection text (literal education_header fl_i false)) in
  if negb (truthy section) then []
  else
    let '(entries, current) :=
      fold_left education_step (section_lines section) ([], None) in
    map finish_education (push entries current).

(** *** extractExperience *)
Definition fresh_experience : ExperienceEntry := MkExperience [] [] [] [].

Definition is_new_role (l : str) : bool :=
  test fl dash_re l && test fl connector_re l || test fl_i role_re l.

Definition without nth_ {A} (l : list A) : list A :=
  firstn nth_ l ++ skipn (S nth_) l.

(** The entry a "Role - Company" line opens. *)
Definition open_role (l : str) : ExperienceEntry :=
  let parts := filter_Boolean (map trim (split_re fl_i parts_sep l)) in
  if 2 <=? List.length parts then
    match findIndex (test fl_i role_part_re) parts with
    | Some roleIdx =>
        MkExperience (join (lit " - ") (without roleIdx parts))
                     (nth roleIdx parts []) [] []
    | None =>
        MkExperience (join (lit " - ") (skipn 1 parts)) (nth 0 parts []) [] []
    end
  else MkExperience [] l [] [].

Definition strip_marker (l : str) : str :=
  trim (replace_first fl marker_strip (fun _ => []) l).

Definition add_bullet (c : ExperienceEntry) (b : str) : ExperienceEntry :=
  MkExperience (company c) (role c) (x_period c) (bullets c ++ [b]).

Definition experience_step (st : list ExperienceEntry * option ExperienceEntry)
           (l : str) : list ExperienceEntry * option ExperienceEntry :=
  let '(entries, current) := st in
  if test fl_i experience_bare l then st
  else if is_new_role l then
    (push entries current, Some (open_role l))
  else if test fl_i (years_re 12) l then
    let c := or_fresh current fresh_experience in
    (entries, Some (MkExperience (company c) (role c) l (bullets c)))
  else if test fl marker_start l || (len l <? 140) then
    let c := or_fresh current fresh_experience in
    (entries, Some (add_bullet c (strip_marker l)))
  else
    let c := or_fresh current fresh_experience in
    (entries, Some (add_bullet c l)).

Definition experience_entries (lines : list str) : list ExperienceEntry :=
  let '(entries, current) := fold_left experience_step lines ([], None) in
  push entries current.

Definition extractExperience (text : str) : list ExperienceEntry :=
  let section := fst (findSection text (literal experience_header fl_i false)) in
  if negb (truthy section) then []
  else experience_entries (section_lines section).

(** *** extractProjects *)
Definition fresh_project : ProjectEntry := MkProject [] [] [] [].

Definition tech_parts (l : str) : list str :=
  split_items (join [COLON] (skipn 1 (split_re fl colon_dash l))).

Definition project_step (st : list ProjectEntry * option ProjectEntry)
           (l : str) : list ProjectEntry * option ProjectEntry :=
  let '(entries, current) := st in
  if test fl_i projects_bare l then st
  else if test fl marker_start l || test fl project_title_re l then
    (push entries current, Some (MkProject (strip_marker l) [] [] []))
  else if test fl_i tech_re l then
    let c := or_fresh current fresh_project in
    (entries,
     Some (MkProject (p_name c) (description c)
             (array_from_set (tech c ++ map cap (tech_parts l))) (link c)))
  else if test fl_i link_line_re l then
    let c := or_fresh current fresh_project in
    (entries,
     Some (MkProject (p_name c) (description c) (tech c)
             (match str_match fl http_re l with Some u => u | None => l end)))
  else
    let c := or_fresh current fresh_project in
    (entries,
     Some (MkProject (p_name c)
             (if truthy (description c) then description c ++ [SP] ++ l else l)
             (tech c) (link c))).

Definition project_entries (lines : list str) : list ProjectEntry :=
  let '(entries, current) := fold_left project_step lines ([], None) in
  push entries current.

Definition extractProjects (text : str) : list ProjectEntry :=
  let section := fst (findSection text (literal projects_header fl_i false)) in
  if negb (truthy section) then []
  else project_entries (section_lines section).

(** *** extractSummary *)
Definition extractSummary (text : str) (name_ : value) : str :=
  let section := fst (findSection text (literal summary_header fl_i false)) in
  if truthy section then
    let withoutHeader := trim (replace_first fl_i summary_strip (fun _ => []) section) in
    join [SP] (slice 0 3 (split_chr LF withoutHeader))
  else
    let lines := section_lines text in
    let startIdx :=
      match findIndex (fun l => includes l (to_string name_)) lines with
      | Some i => i
      | None => 0
      end in
    let candidate :=
      join [SP] (slice 0 2 (filter (test fl sentence_end)
                                   (slice (startIdx + 1) (startIdx + 5) lines))) in
    or2 candidate [].

(** *** parseResumeText *)
Definition is_some {A} (o : option A) : bool :=
  match o with Some _ => true | None => false end.

Definition all_links (blob : str) : list str :=
  array_from_set
    (or_empty (str_match_all fl http_re blob)
     ++ or_empty (str_match_all fl www_re blob)
     ++ or_empty (str_match_all fl_i github_re blob)
     ++ or_empty (str_match_all fl_i linkedin_re blob)
     ++ or_empty (str_match_all fl_i portfolio_re blob)).

Definition parseResumeText (text : str) : result ResumeRecord :=
  let lines := filter_Boolean (map trim (split_chr LF text)) in
  let blob := join [LF] lines in
  let line0 : value := nth_error lines 0 in
  let line1 : value := nth_error lines 1 in
  let probableName : value :=
    if (2 <? len (or_str line0 []))
       && (List.length (split_chr SP (or_str line0 [])) <=? 6)
    then line0
    else Some (guessNameFromText lines) in
  let emailMatch := str_match fl_im email_re blob in
  let phoneMatch := str_match fl_m phone_re blob in
  let locationMatch := str_match fl location_re blob in
  let links_ := all_links blob in
  let skills_ := extractSkills blob in
  let education_ := extractEducation blob in
  let experience_ := extractExperience blob in
  let projects_ := extractProjects blob in
  let summary_ := extractSummary blob probableName in
  title_ <-
    (if value_truthy line1 then
       n <- length_of line1 ;;
       if n <? 80 then
         m <- match_of line1 fl_i title_re ;;
         Ok (if is_some m then Some [] else line1)
       else Ok (Some [])
     else Ok (Some [])) ;;
  email_ <- (if is_some emailMatch then index_of emailMatch else Ok []) ;;
  phone_ <- (if is_some phoneMatch then index_of phoneMatch else Ok []) ;;
  location_ <- (if is_some locationMatch then index_of locationMatch else Ok []) ;;
  Ok (MkResume (or_str probableName []) title_
               (MkContact email_ phone_ location_ links_)
               summary_ skills_ education_ experience_ projects_).

End Parser.

(* ================================================================== *)
(** ** Specification-level definitions *)
(* ================================================================== *)

Module Spec.
Import JS Parser.

(** The text whose lines are [ls], for the examples. *)
Definition doc (ls : list string) : str := join [LF] (map lit ls).

(** *** The result of parseResumeText, field by field *)

Definition lines_of (text : str) : list str :=
  filter_Boolean (map trim (split_chr LF text)).
Definition blob_of (text : str) : str := join [LF] (lines_of text).

Definition name_of (lines : list str) : value :=
  if (2 <? len (or_str (nth_error lines 0) []))
     && (List.length (split_chr SP (or_str (nth_error lines 0) [])) <=? 6)
  then nth_error lines 0
  else Some (guessNameFromText lines).

Definition title_of (lines : list str) : value :=
  match nth_error lines 1 with
  | Some l1 =>
      if truthy l1 && (len l1 <? 80) && negb (test fl_i title_re l1)
      then Some l1 else Some []
  | None => Some []
  end.

Definition first_or_empty (m : option str) : str :=
  match m with Some s => s | None => [] end.

Definition record_of (text : str) : ResumeRecord :=
  let lines := lines_of text in
  let blob := blob_of text in
  MkResume (or_str (name_of lines) []) (title_of lines)
    (MkContact (first_or_empty (str_match fl_im email_re blob))
               (first_or_empty (str_match fl_m phone_re blob))
               (first_or_empty (str_match fl location_re blob))
               (all_links blob))
    (extractSummary blob (name_of lines))
    (extractSkills blob) (extractEducation blob)
    (extractExperience blob) (extractProjects blob).

(** The record with every field at its empty default. *)
Definition empty_record : ResumeRecord :=
  MkResume [] (Some []) (MkContact [] [] [] []) [] [] [] [] [].

(** *** Keywords in a line, without regular expressions *)

(** The input at [p] starts with [w], up to the case folding of [f]; the
    position right after [w]. *)
Fixpoint eat (f : flags) (w : str) (p : pos) : option pos :=
  match w with
  | [] => Some p
  | a :: w' =>
      match snd p with
      | c :: s' => if (canon f a =? canon f c)%N then eat f w' (Some c, s') else None
      | [] => None
      end
  end.

Definition nonempty {A} (l : list A) : bool :=
  match l with [] => false | _ => true end.

(** [P] holds at some position of [s]. *)
Fixpoint any_pos (P : pos -> bool) (prev : option char) (s : str) : bool :=
  P (prev, s) ||
  match s with
  | [] => false
  | c :: s' => any_pos P (Some c) s'
  end.

(** The line starts with one of the words, whatever the case. *)
Definition starts_with_any (ws : list string) (l : str) : bool :=
  existsb (fun w => is_some (eat fl_i (lit w) (None, l))) ws.

(** The line starts with one of the words, whatever the case, and the word
    ends there: no letter, digit or underscore follows it. *)
Definition starts_with_whole (ws : list string) (l : str) : bool :=
  existsb (fun w => match eat fl_i (lit w) (None, l) with
                    | Some q => negb (word_after q)
                    | None => false
                    end) ws.

(** One of the words occurs somewhere in the line, whatever the case. *)
Definition contains_any (ws : list string) (l : str) : bool :=
  any_pos (fun p => existsb (fun w => is_some (eat fl_i (lit w) p)) ws) None l.

(** The line is one of the words, whatever the case. *)
Definition is_any (ws : list string) (l : str) : bool :=
  existsb (fun w => match eat fl_i (lit w) (None, l) with
                    | Some (_, []) => true
                    | _ => false
                    end) ws.

(** *** locateSection, in the words of the specification

    The section starts at the first line the header pattern accepts and
    runs up to, not including, the first later line that is a boundary, or
    to the end of the document. *)
Fixpoint take_until {A} (stop : A -> bool) (l : list A) : list A :=
  match l with
  | [] => []
  | x :: l' => if stop x then [] else x :: take_until stop l'
  end.

Definition section_range (boundary header : str -> bool) (lines : list str)
  : option (nat * nat) :=
  match findIndex header lines with
  | None => None
  | Some start =>
      Some (start, S start + List.length (take_until boundary (skipn (S start) lines)))
  end.

Definition locateSection (boundary header : str -> bool) (blob : str) : str :=
  let lines := split_chr LF blob in
  match section_range boundary header lines with
  | None => []
  | Some (start, stop) => trim (join [LF] (slice start stop lines))
  end.

(** *** Bullets of the experience entries *)

(** The lines of the Experience section, as the classifier reads them. *)
Definition experience_lines (text : str) : list str :=
  section_lines (fst (findSection text (literal experience_header fl_i false))).

(** The lines the classifier turns into bullets, and the bullet of each. *)
Definition is_bullet_line (l : str) : bool :=
  negb (test fl_i experience_bare l) && negb (is_new_role l)
  && negb (test fl_i (years_re 12) l).

Definition bullet_text (l : str) : str :=
  if test fl marker_start l || (len l <? 140) then strip_marker l else l.

(** A leading "-" or bullet and one space after it, removed. *)
Definition is_marker (c : char) : bool := ((c =? ch "-") || (c =? BULLET))%N.

Definition drop_marker (l : str) : str :=
  match l with
  | m :: rest =>
      if is_marker m then
        match rest with
        | c :: rest' => if is_space c then rest' else rest
        | [] => []
        end
      else l
  | [] => []
  end.

Definition starts_with_marker (l : str) : bool :=
  match l with m :: _ => is_marker m | [] => false end.

(** The entries built so far, the open one last. *)
Definition all_entries {A} (st : list A * option A) : list A :=
  push (fst st) (snd st).

(** Every entry of [old] is still there, at its place, with its bullets
    and possibly more after them. *)
Definition bullets_grow (old new : list ExperienceEntry) : Prop :=
  forall i e, nth_error old i = Some e ->
    exists e' more, nth_error new i = Some e' /\ bullets e' = bullets e ++ more.

(** The first entry has neither a role nor a company. *)
Definition head_blank (es : list ExperienceEntry) : Prop :=
  match es with
  | e :: _ => role e = [] /\ company e = []
  | [] => False
  end.

(** *** Statements that the code does not meet, as the specification words them *)

(** Section boundaries at every line that starts with a keyword. *)
Definition locateSection_as_stated : Prop :=
  forall (blob : str) (p : regex) (f : flags) (g : bool),
    fst (findSection blob (literal p f g))
    = locateSection (starts_with_any boundary_words) (test f p) blob.

(** A line of the Experience range is in no field of an education entry. *)
Definition appears_in (l : str) (e : EducationEntry) : bool :=
  includes (degree e) l || includes (institution e) l
  || includes (period e) l || includes (details e) l.

Definition isolation_as_stated : Prop :=
  forall (text : str) (start stop i : nat) (l : str) (e : EducationEntry),
    section_range (starts_with_whole boundary_words) (test fl_i experience_header)
                  (split_chr LF text) = Some (start, stop) ->
    start <= i < stop ->
    nth_error (split_chr LF text) i = Some l ->
    In e (extractEducation text) ->
    appears_in l e = false.

(** Scenario 3: the rest of each word is lower-cased. *)
Definition scenario3 : str :=
  doc ["Skills"; "Languages: JavaScript, TypeScript"]%string.

Definition scenario3_as_stated : Prop :=
  exists r, parseResumeText scenario3 = Ok r
    /\ skills r = map lit ["Javascript"; "Typescript"]%string.

(** A second line that is a section header gives no title. *)
Definition title_as_stated : Prop :=
  forall (text : str) (r : ResumeRecord) (l1 : str),
    parseResumeText text = Ok r ->
    nth_error (lines_of text) 1 = Some l1 ->
    is_any boundary_words l1 = true ->
    title r = Some [].

(** *** Inputs of the scenarios and examples *)
Definition experienced_text : str :=
  doc ["Experience"; "Acme Corp"; "Experienced in Go"; "Education"; "MIT"]%string.

Definition leaking_text : str :=
  doc ["Experience"; "Taught education courses"; "Education";
       "B.Tech Computer Science"]%string.

Definition two_sections_text : str :=
  doc ["Experience"; "Software Engineer - Acme Corp"; "Built tools";
       "Education"; "B.Tech Computer Science"]%string.

Definition skills_title_text : str := doc ["Jane Doe"; "Skills"; "Go, Rust"]%string.

Definition education_title_text : str :=
  doc ["Jane Doe"; "Education"; "XYZ University"]%string.

Definition blank_role_text : str :=
  doc ["Experience"; "2019 to present"; "Shipped the billing service"]%string.

Definition scenario1 : str :=
  doc ["Jane Doe"; "Software Engineer"; "jane@x.com"; "Skills";
       "Go, Rust, Python"; "Education"; "B.Tech Computer Science";
       "XYZ University"; "2018 - 2022"]%string.

End Spec.

(* ================================================================== *)
(** ** The helpers of the page (App.js) and the PDF front end *)
(* ================================================================== *)

Module App.
Import JS Parser.

(** /^https?:\/\//i *)
Definition scheme_re : regex :=
  Seqs [Bol; Word "http"; Opt (Chr (ch "s")); Word "://"].

(** normalizeLink *)
Definition normalizeLink (link : str) : str :=
  if negb (test fl_i scheme_re link) then lit "https://" ++ link else link.

End App.

Module Pdf.
Import JS Parser.

(** What [extractResumeDataFromPdf] may be given: a string, a File, an
    object with an [arrayBuffer] method, or anything else.  [data] is what
    [arrayBuffer()] resolves to. *)
Inductive input : Type :=
| AString (url : str)
| AFile (data : list N)
| ABlobLike (data : list N)
| AnythingElse.

(** The argument of [pdfjs.getDocument]. *)
Inductive document_source : Type :=
| Url (url : str)
| Data (data : list N).

(** A loaded document, as far as the code reads it: [numPages], and for a
    page number the [str] of the items of its text content; [None] is a
    rejected promise. *)
Record PdfDocument : Type := MkPdf {
  numPages : nat;
  getPage : nat -> option (list str)
}.

Inductive failure : Type :=
| ImportRejected     (* the dynamic import of pdf.js failed *)
| UnsupportedInput   (* the Error thrown for an unsupported argument *)
| LoadRejected       (* loadingTask.promise rejected *)
| PageRejected       (* getPage or getTextContent rejected *)
| ParserThrew.       (* parseResumeText threw *)

Inductive outcome (A : Type) : Type :=
| Resolved (a : A)
| Rejected (e : failure).
Arguments Resolved {A} a.
Arguments Rejected {A} e.

Section Extract.
(** [getPdfJs()]: pdf.js is imported from a CDN at run time; it gives the
    loader [getDocument], or the import is rejected ([None]). *)
Variable getPdfJs : option (document_source -> option PdfDocument).

(** The [for] loop over the pages: [count] pages are still to be read,
    [pageNum] is the next one. *)
Fixpoint read_pages (pdf : PdfDocument) (pageNum count : nat) (fullText : str)
  : outcome str :=
  match count with
  | O => Resolved fullText
  | S k =>
      match getPage pdf pageNum with
      | None => Rejected PageRejected
      | Some items =>
          let pageText := join [LF] items in
          read_pages pdf (S pageNum) k (fullText ++ [LF] ++ pageText)
      end
  end.

Definition extractResumeDataFromPdf (fileOrUrl : input) : outcome ResumeRecord :=
  match getPdfJs with
  | None => Rejected ImportRejected
  | Some getDocument =>
      let loadingTask :=
        match fileOrUrl with
        | AString url => Some (getDocument (Url url))
        | AFile data => Some (getDocument (Data data))
        | ABlobLike data => Some (getDocument (Data data))
        | AnythingElse => None
        end in
      match loadingTask with
      | None => Rejected UnsupportedInput
      | Some None => Rejected LoadRejected
      | Some (Some pdf) =>
          let maxPages := Nat.min (numPages pdf) 10 in
          match read_pages pdf 1 maxPages [] with
          | Rejected e => Rejected e
          | Resolved fullText =>
              match parseResumeText fullText with
              | Ok parsed => Resolved parsed
              | TypeError => Rejected ParserThrew
              end
          end
      end
  end.

End Extract.
End Pdf.

(* ================================================================== *)
(** ** Further specification-level definitions *)
(* ================================================================== *)

Module SpecX.
Import JS Parser Spec.

(** The words a pattern can match, anchors and boundaries left aside. *)
Fixpoint lang (f : flags) (r : regex) : str -> Prop :=
  match r with
  | Eps | Bol | Eol | WordB => fun w => w = []
  | Chr a => fun w => exists c, w = [c] /\ canon f a = canon f c
  | Cls neg items => fun w => exists c, w = [c] /\ xorb neg (class_mem f items c) = true
  | Dot => fun w => exists c, w = [c] /\ is_line_terminator c = false
  | Seq r1 r2 => fun w => exists w1 w2, w = w1 ++ w2 /\ lang f r1 w1 /\ lang f r2 w2
  | Alt r1 r2 => fun w => lang f r1 w \/ lang f r2 w
  | Star r1 => fun w => exists ws, w = concat ws /\ Forall (lang f r1) ws
  end.

(** [t] occurs in [s]. *)
Definition substring (t s : str) : Prop := exists pre post, s = pre ++ t ++ post.

(** A normalized line: not empty, without a line feed, without white space
    at either end. *)
Definition normal_line (l : str) : Prop :=
  l <> [] /\ ~ In LF l
  /\ match l with [] => True | c :: _ => is_space c = false end
  /\ match rev l with [] => True | c :: _ => is_space c = false end.

(** A character without white space, and the characters of a phone
    number. *)
Definition visible (c : N) : Prop := is_space c = false.

Definition phone_char (c : N) : bool :=
  is_digit c || is_space c
  || existsb (N.eqb c) [ch "+"; ch "-"; ch "("; ch ")"; ch "."].

Definition last_is (P : N -> bool) (s : str) : bool :=
  match rev s with c :: _ => P c | [] => false end.

(** The characters of a string that are not white space, in order. *)
Definition ink (s : str) : str := filter (fun c => negb (is_space c)) s.

(** [s.replace(/\s+/g, ' ')], the first step of [cap]. *)
Definition collapse (s : str) : str := replace_all fl spaces_re (fun _ => [SP]) s.

(** A token: not empty, no white space at either end. *)
Definition tidy (s : str) : Prop :=
  s <> []
  /\ match s with [] => True | c :: _ => is_space c = false end
  /\ match rev s with [] => True | c :: _ => is_space c = false end.

(** The words of the five header patterns. *)
Definition skills_words : list string := ["skills"; "technical skills"]%string.
Definition education_words : list string :=
  ["education"; "academics"; "academic background"]%string.
Definition experience_words : list string :=
  ["experience"; "work experience"; "professional experience"]%string.
Definition projects_words : list string := ["projects"; "personal projects"]%string.
Definition summary_words : list string := ["summary"; "objective"; "about"]%string.

(** The words of the headers of the four list sections. *)
Definition list_section_words : list string :=
  skills_words ++ education_words ++ experience_words ++ projects_words.

(** An education entry is not blank: it has a degree, or else it has no
    details and an institution or a period. *)
Definition education_filled (e : EducationEntry) : Prop :=
  degree e <> []
  \/ (details e = [] /\ (institution e <> [] \/ period e <> [])).

(** The characters of a guessed name: [A-Za-z .'-]. *)
Definition name_char (c : N) : bool :=
  is_upper c || is_lower c
  || existsb (N.eqb c) [ch " "; ch "."; ch "'"; ch "-"].

(** The argument of [getDocument] for an input, when it is supported. *)
Definition source_of (i : Pdf.input) : option Pdf.document_source :=
  match i with
  | Pdf.AString url => Some (Pdf.Url url)
  | Pdf.AFile data => Some (Pdf.Data data)
  | Pdf.ABlobLike data => Some (Pdf.Data data)
  | Pdf.AnythingElse => None
  end.

(** The items of a page, none for a page that is not there. *)
Definition page_items (pdf : Pdf.PdfDocument) (n : nat) : list str :=
  match Pdf.getPage pdf n with Some items => items | None => [] end.

(** The lines of the first pages of a document, ten at most: every item
    gives its own lines. *)
Definition document_lines (pdf : Pdf.PdfDocument) : list str :=
  flat_map (fun n => flat_map lines_of (page_items pdf n))
           (seq 1 (Nat.min (Pdf.numPages pdf) 10)).

(** The two schemes a link may start with. *)
Definition schemes : list string := ["http://"; "https://"]%string.

(** The lines a classifier does not skip, and whether the first of them
    fails to open an entry (an entry without opening line is then made). *)
Definition effective (skip : str -> bool) (lines : list str) : list str :=
  filter (fun l => negb (skip l)) lines.

Definition starts_unopened (opens : str -> bool) (eff : list str) : bool :=
  match eff with
  | l :: _ => negb (opens l)
  | [] => false
  end.

(** The lines of the sections, as the classifiers read them, and the
    lines that open an entry. *)
Definition education_lines (text : str) : list str :=
  section_lines (fst (findSection text (literal education_header fl_i false))).
Definition projects_lines (text : str) : list str :=
  section_lines (fst (findSection text (literal projects_header fl_i false))).

Definition opens_project (l : str) : bool :=
  test fl marker_start l || test fl project_title_re l.

(** Inputs of the examples. *)
Definition no_sections_text : str := doc ["Jane Doe"; "Software Engineer"]%string.

Definition two_pages : Pdf.PdfDocument :=
  Pdf.MkPdf 2 (fun n => match n with
                        | 1 => Some [lit "Jane Doe"; lit "  Software Engineer "]
                        | 2 => Some [lit "Skills"; lit "Go, Rust"]
                        | _ => None
                        end).

End SpecX.
(* ================================================================== *)
(** ** Properties *)
(* ================================================================== *)

Module Properties.
Import JS Parser Spec.

Lemma guarded_index (m : option str) :
  (if is_some m then index_of m else Ok []) = Ok (first_or_empty m).
Proof. destruct m; reflexivity. Qed.

Lemma guarded_title (lines : list str) :
  (if value_truthy (nth_error lines 1) then
     n <- length_of (nth_error lines 1) ;;
     if n <? 80 then
       m <- match_of (nth_error lines 1) fl_i title_re ;;
       Ok (if is_some m then Some [] else nth_error lines 1)
     else Ok (Some [])
   else Ok (Some [])) = Ok (title_of lines).
Proof.
  unfold title_of, value_truthy, length_of, match_of, bind, test, str_match.
  destruct (nth_error lines 1) as [l1|]; [|reflexivity].
  destruct (truthy l1); [|reflexivity]. simpl andb.
  destruct (len l1 <? 80); [|reflexivity]. simpl andb.
  destruct (search fl_i title_re [] None l1); reflexivity.
Qed.

(** No property read in [parseResumeText] throws: every one is guarded. *)
Lemma parseResumeText_Ok (text : str) :
  parseResumeText text = Ok (record_of text).
Proof.
  unfold parseResumeText.
  fold (lines_of text). fold (blob_of text).
  rewrite guarded_title, !guarded_index.
  reflexivity.
Qed.

(** *** Array.from(new Set(...)) has no duplicates *)

Lemma str_eqb_eq (a b : str) : str_eqb a b = true <-> a = b.
Proof.
  unfold str_eqb. destruct (list_eq_dec N.eq_dec a b); split; congruence.
Qed.

Lemma set_add_In (x y : str) (seen : list str) :
  In y (set_add x seen) <-> y = x \/ In y seen.
Proof.
  induction seen as [|z seen IH]; simpl.
  - intuition.
  - destruct (str_eqb x z) eqn:E.
    + apply str_eqb_eq in E. subst z. simpl. intuition.
    + simpl. rewrite IH. intuition.
Qed.

Lemma set_add_NoDup (x : str) (seen : list str) :
  NoDup seen -> NoDup (set_add x seen).
Proof.
  induction seen as [|z seen IH]; simpl; intros H.
  - constructor; [intros []|constructor].
  - destruct (str_eqb x z) eqn:E; [assumption|].
    inversion_clear H as [|? ? Hz Hs].
    constructor; [|auto].
    rewrite set_add_In. intros [->|Hin]; [|contradiction].
    assert (str_eqb x x = true) by now apply str_eqb_eq.
    congruence.
Qed.

Lemma fold_set_add_NoDup (l seen : list str) :
  NoDup seen -> NoDup (fold_left (fun s x => set_add x s) l seen).
Proof.
  revert seen. induction l as [|x l IH]; simpl; intros seen H; [assumption|].
  apply IH, set_add_NoDup, H.
Qed.

Lemma array_from_set_NoDup (l : list str) : NoDup (array_from_set l).
Proof. apply fold_set_add_NoDup. constructor. Qed.

(** The first insertion of every value is kept, in order: the values of
    the result are those of the argument. *)
Lemma fold_set_add_In (y : str) (l seen : list str) :
  In y (fold_left (fun s x => set_add x s) l seen) <-> In y seen \/ In y l.
Proof.
  revert seen. induction l as [|x l IH]; simpl; intros seen.
  - intuition.
  - rewrite IH, set_add_In. intuition.
Qed.

Lemma array_from_set_In (y : str) (l : list str) :
  In y (array_from_set l) <-> In y l.
Proof. unfold array_from_set. rewrite fold_set_add_In. simpl. intuition. Qed.


(** *** The matcher on keyword patterns *)

Lemma nonempty_app {A} (l1 l2 : list A) :
  nonempty (l1 ++ l2) = nonempty l1 || nonempty l2.
Proof. destruct l1; reflexivity. Qed.

Lemma nonempty_flat_map {A B} (g : A -> list B) (l : list A) :
  nonempty (flat_map g l) = existsb (fun x => nonempty (g x)) l.
Proof.
  induction l as [|x l IH]; simpl; [reflexivity|].
  now rewrite nonempty_app, IH.
Qed.

Lemma flat_map_flat_map {A B C} (g : A -> list B) (h : B -> list C) (l : list A) :
  flat_map h (flat_map g l) = flat_map (fun x => flat_map h (g x)) l.
Proof.
  induction l as [|x l IH]; simpl; [reflexivity|].
  now rewrite flat_map_app, IH.
Qed.

Lemma existsb_eq {A} (g h : A -> bool) (l : list A) :
  (forall x, g x = h x) -> existsb g l = existsb h l.
Proof.
  intros H. induction l as [|x l IH]; simpl; [reflexivity|]. now rewrite H, IH.
Qed.

Lemma any_pos_ext (P Q : pos -> bool) prev s :
  (forall p, P p = Q p) -> any_pos P prev s = any_pos Q prev s.
Proof.
  intros H. revert prev. induction s as [|c s IH]; intros prev; simpl.
  - now rewrite H.
  - now rewrite H, IH.
Qed.

Lemma any_pos_after (P : pos -> bool) c s :
  (forall d t, P (Some d, t) = false) -> any_pos P (Some c) s = false.
Proof.
  intros H. revert c. induction s as [|x s IH]; intros c; simpl.
  - now rewrite H.
  - now rewrite H, IH.
Qed.

Lemma any_pos_first (P : pos -> bool) s :
  (forall d t, P (Some d, t) = false) -> any_pos P None s = P (None, s).
Proof.
  intros H. destruct s as [|c s]; simpl.
  - apply orb_false_r.
  - rewrite any_pos_after by assumption. apply orb_false_r.
Qed.

Section Matcher.
Variable f : flags.

Lemma match_at_nonempty r p : is_some (match_at f r p) = nonempty (ends f r p).
Proof. unfold match_at. now destruct (ends f r p). Qed.

Lemma search_is_some r pre prev s :
  is_some (search f r pre prev s)
  = any_pos (fun p => is_some (match_at f r p)) prev s.
Proof.
  revert pre prev. induction s as [|c s IH]; intros pre prev; cbn [search any_pos].
  - destruct (match_at f r _); reflexivity.
  - destruct (match_at f r _); [reflexivity|]. cbn [is_some orb]. apply IH.
Qed.

Lemma test_any_pos r s :
  test f r s = any_pos (fun p => nonempty (ends f r p)) None s.
Proof.
  unfold test.
  rewrite <- (any_pos_ext (fun p => is_some (match_at f r p)))
    by (intros; apply match_at_nonempty).
  rewrite <- (search_is_some r [] None s).
  now destruct (search f r [] None s).
Qed.

Lemma ends_Str w p :
  ends f (Str w) p = match eat f w p with Some q => [q] | None => [] end.
Proof.
  revert p. induction w as [|a w IH]; intros p; [reflexivity|].
  destruct w as [|b w].
  - simpl. unfold one. destruct (snd p) as [|c s]; [reflexivity|].
    now destruct (canon f a =? canon f c)%N.
  - change (Str (a :: b :: w)) with (Seq (Chr a) (Str (b :: w))).
    cbn [ends eat]. unfold one. destruct (snd p) as [|c s]; [reflexivity|].
    destruct (canon f a =? canon f c)%N; [|reflexivity].
    cbn [flat_map]. rewrite IH, app_nil_r. reflexivity.
Qed.

Lemma ends_Alts rs p :
  rs <> [] -> ends f (Alts rs) p = flat_map (fun r => ends f r p) rs.
Proof.
  induction rs as [|r rs IH]; intros H; [congruence|].
  destruct rs as [|r' rs].
  - simpl. now rewrite app_nil_r.
  - change (Alts (r :: r' :: rs)) with (Alt r (Alts (r' :: rs))).
    cbn [ends flat_map]. rewrite IH by discriminate. reflexivity.
Qed.

Lemma ends_words ws p :
  ws <> [] ->
  ends f (Alts (map Word ws)) p
  = flat_map (fun w => match eat f (lit w) p with Some q => [q] | None => [] end) ws.
Proof.
  intros H. rewrite ends_Alts by (destruct ws; [congruence|discriminate]).
  rewrite flat_map_concat_map, map_map, <- flat_map_concat_map.
  apply flat_map_ext. intros w. apply ends_Str.
Qed.

(** /w1|w2|.../ : one of the words occurs at some position. *)
Lemma test_words ws s :
  ws <> [] ->
  test f (Alts (map Word ws)) s
  = any_pos (fun p => existsb (fun w => is_some (eat f (lit w) p)) ws) None s.
Proof.
  intros H. rewrite test_any_pos. apply any_pos_ext. intros p.
  rewrite ends_words, nonempty_flat_map by assumption.
  apply existsb_eq. intros w. now destruct (eat f (lit w) p).
Qed.

(** /^(w1|w2|...)\b/ without the m flag: the line starts with one of the
    words and a word boundary follows. *)
Lemma test_anchored_words ws s :
  multiline f = false -> ws <> [] ->
  test f (Seqs [Bol; Alts (map Word ws); WordB]) s
  = existsb (fun w => match eat f (lit w) (None, s) with
                      | Some q => xorb (word_before q) (word_after q)
                      | None => false
                      end) ws.
Proof.
  intros Hm H. rewrite test_any_pos, any_pos_first.
  - cbn [Seqs ends fst guard flat_map]. rewrite app_nil_r, ends_words by assumption.
    rewrite flat_map_flat_map, nonempty_flat_map. apply existsb_eq. intros w.
    destruct (eat f (lit w) (None, s)) as [q|]; [|reflexivity].
    cbn [ends guard flat_map]. rewrite app_nil_r.
    now destruct (xorb (word_before q) (word_after q)).
  - intros d t. cbn [Seqs ends fst guard]. now rewrite Hm.
Qed.

(** What [eat] consumed last has the canonical form of the last character
    of the word. *)
Lemma eat_last w p q :
  eat f w p = Some q -> w <> [] ->
  exists c, fst q = Some c /\ canon f (last w 0%N) = canon f c.
Proof.
  revert p. induction w as [|a w IH]; intros p He H; [congruence|].
  cbn [eat] in He. destruct (snd p) as [|c s]; [discriminate|].
  destruct (canon f a =? canon f c)%N eqn:E; [|discriminate].
  destruct w as [|b w].
  - injection He as <-. exists c. split; [reflexivity|].
    now apply N.eqb_eq in E.
  - destruct (IH _ He) as (c' & Hc & Hl); [discriminate|].
    exists c'. split; [assumption|]. exact Hl.
Qed.

End Matcher.

(** *** Case folding keeps word characters apart from the others *)

Lemma in_range_spec lo hi c :
  in_range lo hi c = true <-> (lo <= c /\ c <= hi)%N.
Proof.
  unfold in_range. rewrite andb_true_iff, !N.leb_le. reflexivity.
Qed.

Lemma is_word_to_upper c : is_word (to_upper c) = is_word c.
Proof.
  unfold to_upper. destruct (is_lower c) eqn:E; [|reflexivity].
  unfold is_word. rewrite E, orb_true_r. cbn [orb].
  apply in_range_spec in E.
  assert (H : is_upper (c - 32) = true) by (apply in_range_spec; lia).
  now rewrite H.
Qed.

Lemma is_word_canon f a c :
  canon f a = canon f c -> is_word a = is_word c.
Proof.
  unfold canon. destruct (ignoreCase f); [|congruence].
  intros H. rewrite <- (is_word_to_upper a), <- (is_word_to_upper c). congruence.
Qed.

(** After a word that ends in a letter, the matcher stands behind a word
    character. *)
Lemma eat_word_before f w p q :
  eat f w p = Some q -> w <> [] -> is_word (last w 0%N) = true ->
  word_before q = true.
Proof.
  intros He Hw Hl. destruct (eat_last _ _ _ _ He Hw) as (c & Hc & Hcan).
  unfold word_before. rewrite Hc. rewrite <- (is_word_canon _ _ _ Hcan). exact Hl.
Qed.

(** *** The patterns of the parser on keywords *)

(** The boundary pattern of findSection. *)
Lemma test_boundary l :
  test fl_i boundary_re l = starts_with_whole boundary_words l.
Proof.
  unfold boundary_re. rewrite test_anchored_words by (reflexivity || discriminate).
  unfold starts_with_whole.
  assert (Hall : Forall (fun w => lit w <> [] /\ is_word (last (lit w) 0%N) = true)
                        boundary_words).
  { repeat constructor; discriminate. }
  induction Hall as [|w ws [Hw Hl] _ IH]; [reflexivity|].
  cbn [existsb]. rewrite IH. f_equal.
  destruct (eat fl_i (lit w) (None, l)) as [q|] eqn:E; [|reflexivity].
  now rewrite (eat_word_before _ _ _ _ E Hw Hl).
Qed.

(** The pattern that keeps a second line from being the title. *)
Lemma test_title l : test fl_i title_re l = contains_any title_words l.
Proof. unfold title_re, contains_any. apply test_words. discriminate. Qed.

(** A pattern that starts with ^ and has no m flag matches at the start of
    the input or nowhere. *)
Lemma match_at_Bol_later f r c s :
  multiline f = false -> match_at f (Seq Bol r) (Some c, s) = None.
Proof. intros Hm. unfold match_at. cbn [ends fst]. now rewrite Hm. Qed.

Lemma search_Bol_later f r pre c s :
  multiline f = false -> search f (Seq Bol r) pre (Some c) s = None.
Proof.
  intros Hm. revert pre c.
  induction s as [|x s IH]; intros pre c; cbn [search];
    rewrite match_at_Bol_later by assumption; [reflexivity|apply IH].
Qed.

Lemma search_Bol f r pre s :
  multiline f = false ->
  search f (Seq Bol r) pre None s
  = match ends f r (None, s) with
    | q :: _ => Some (Found pre (consumed s q) q)
    | [] => None
    end.
Proof.
  intros Hm.
  assert (E : match_at f (Seq Bol r) (None, s) = match_at f r (None, s)).
  { unfold match_at. cbn [ends fst guard flat_map]. now rewrite app_nil_r. }
  destruct s as [|x s]; cbn [search]; rewrite E; unfold match_at.
  - now destruct (ends f r _).
  - destruct (ends f r _); [apply search_Bol_later, Hm|reflexivity].
Qed.

(** *** findSection *)

(** Without the g flag, [test] neither reads nor writes [lastIndex]. *)
Lemma RegExp_test_pure p f i l :
  RegExp_test (MkRegExp p f false i) l = (test f p l, MkRegExp p f false i).
Proof. reflexivity. Qed.

Lemma header_indexes_first p f i lines idx :
  snd (header_indexes (MkRegExp p f false i) idx lines) = MkRegExp p f false i
  /\ hd_error (fst (header_indexes (MkRegExp p f false i) idx lines))
     = option_map (Nat.add idx) (findIndex (test f p) lines).
Proof.
  revert idx. induction lines as [|l ls IH]; intros idx; [now split|].
  cbn [header_indexes findIndex]. rewrite RegExp_test_pure.
  destruct (IH (S idx)) as [IH1 IH2].
  destruct (header_indexes (MkRegExp p f false i) (S idx) ls) as [rest R2].
  cbn [fst snd] in *. split; [assumption|].
  destruct (test f p l); cbn [hd_error option_map].
  - f_equal. lia.
  - rewrite IH2. destruct (findIndex (test f p) ls); cbn [option_map]; [|reflexivity].
    f_equal. lia.
Qed.

Lemma take_until_ext {A} (g h : A -> bool) (l : list A) :
  (forall x, g x = h x) -> take_until g l = take_until h l.
Proof.
  intros H. induction l as [|x l IH]; simpl; [reflexivity|].
  rewrite H, IH. reflexivity.
Qed.

Lemma section_end_take_until i ls :
  section_end i ls
  = i + List.length (take_until (starts_with_whole boundary_words) ls).
Proof.
  revert i. induction ls as [|l ls IH]; intros i; cbn [section_end take_until].
  - simpl. lia.
  - rewrite test_boundary.
    destruct (starts_with_whole boundary_words l); simpl; [lia|].
    rewrite IH. lia.
Qed.

(** The section findSection returns is the one the specification
    describes, a boundary being a line that starts with a whole keyword;
    the RegExp object comes back as it was. *)
Lemma findSection_locate text p f i :
  findSection text (MkRegExp p f false i)
  = (locateSection (starts_with_whole boundary_words) (test f p) text,
     MkRegExp p f false i).
Proof.
  unfold findSection, locateSection, section_range.
  destruct (header_indexes_first p f i (split_chr LF text) 0) as [H1 H2].
  destruct (header_indexes (MkRegExp p f false i) 0 (split_chr LF text))
    as [indexes R'].
  cbn [fst snd] in *. subst R'.
  destruct indexes as [|start rest]; cbn [hd_error] in H2;
    destruct (findIndex (test f p) (split_chr LF text)) as [k|];
    cbn [option_map] in H2; try discriminate; [reflexivity|].
  injection H2 as ->. cbn [Nat.add].
  rewrite section_end_take_until.
  replace (k + 1) with (S k) by lia. reflexivity.
Qed.

(** A fresh literal with the g flag: [lastIndex] is 0 up to the first line
    the pattern accepts, so that line is found all the same. *)
Lemma RegExp_test_fresh p f g l :
  fst (RegExp_test (MkRegExp p f g 0) l) = test f p l
  /\ (test f p l = false ->
      snd (RegExp_test (MkRegExp p f g 0) l) = MkRegExp p f g 0).
Proof.
  destruct g; [|now split].
  unfold RegExp_test, test, set_lastIndex.
  cbn [global lastIndex source re_flags firstn skipn last_opt rev len List.length
       Nat.ltb Nat.leb].
  destruct (search f p [] None l); now split.
Qed.

Lemma header_indexes_first_fresh p f g lines idx :
  hd_error (fst (header_indexes (MkRegExp p f g 0) idx lines))
  = option_map (Nat.add idx) (findIndex (test f p) lines).
Proof.
  revert idx. induction lines as [|l ls IH]; intros idx; [reflexivity|].
  cbn [header_indexes findIndex].
  destruct (RegExp_test_fresh p f g l) as [H1 H2].
  destruct (RegExp_test (MkRegExp p f g 0) l) as [hit R1].
  cbn [fst snd] in H1, H2. subst hit.
  destruct (test f p l).
  - destruct (header_indexes R1 (S idx) ls) as [rest R2].
    cbn [fst hd_error option_map]. f_equal. lia.
  - rewrite H2 by reflexivity. specialize (IH (S idx)).
    destruct (header_indexes (MkRegExp p f g 0) (S idx) ls) as [rest R2].
    cbn [fst] in *. rewrite IH.
    destruct (findIndex (test f p) ls); cbn [option_map]; [|reflexivity].
    f_equal. lia.
Qed.

Lemma findSection_locate_fresh text p f g :
  fst (findSection text (literal p f g))
  = locateSection (starts_with_whole boundary_words) (test f p) text.
Proof.
  unfold findSection, locateSection, section_range, literal.
  pose proof (header_indexes_first_fresh p f g (split_chr LF text) 0) as H.
  destruct (header_indexes (MkRegExp p f g 0) 0 (split_chr LF text))
    as [indexes R'].
  cbn [fst] in H.
  destruct indexes as [|start rest]; cbn [hd_error] in H;
    destruct (findIndex (test f p) (split_chr LF text)) as [k|];
    cbn [option_map] in H; try discriminate; [reflexivity|].
  injection H as ->. cbn [Nat.add fst].
  rewrite section_end_take_until.
  replace (k + 1) with (S k) by lia. reflexivity.
Qed.

(** *** The range of a section *)

Lemma findIndex_Some {A} (P : A -> bool) (l : list A) (k : nat) (d : A) :
  findIndex P l = Some k ->
  k < List.length l /\ P (nth k l d) = true
  /\ forall j, j < k -> P (nth j l d) = false.
Proof.
  revert k. induction l as [|x l IH]; intros k H; [discriminate|].
  cbn [findIndex] in H. destruct (P x) eqn:E.
  - injection H as <-. simpl. repeat split; [lia|assumption|lia].
  - destruct (findIndex P l) as [k'|]; [|discriminate].
    injection H as <-. destruct (IH k' eq_refl) as (H1 & H2 & H3).
    simpl. repeat split; [lia|assumption|].
    intros [|j] Hj; [assumption|]. apply H3. lia.
Qed.

Lemma findIndex_None {A} (P : A -> bool) (l : list A) :
  findIndex P l = None <-> forall x, In x l -> P x = false.
Proof.
  induction l as [|x l IH]; cbn [findIndex].
  - split; [intros _ ? []|reflexivity].
  - destruct (P x) eqn:E.
    + split; [discriminate|]. intros H. rewrite (H x) in E by now left. discriminate.
    + destruct (findIndex P l).
      * split; [discriminate|]. intros H.
        assert (Hn : Some n = None) by (apply IH; intros y Hy; apply H; now right).
        discriminate.
      * split; [|reflexivity]. intros _ y [<-|Hy]; [assumption|].
        now apply IH.
Qed.

Lemma take_until_spec {A} (B : A -> bool) (l : list A) (d : A) :
  List.length (take_until B l) <= List.length l
  /\ (forall j, j < List.length (take_until B l) -> B (nth j l d) = false)
  /\ (List.length (take_until B l) < List.length l ->
      B (nth (List.length (take_until B l)) l d) = true).
Proof.
  induction l as [|x l (IH1 & IH2 & IH3)]; cbn [take_until].
  - simpl. repeat split; lia.
  - destruct (B x) eqn:E; simpl.
    + repeat split; [lia|lia|]. intros _. assumption.
    + repeat split; [lia| |].
      * intros [|j] Hj; [assumption|]. apply IH2. lia.
      * intros H. apply IH3. lia.
Qed.

Lemma take_until_le {A} (B : A -> bool) (l : list A) (k : nat) (d : A) :
  B (nth k l d) = true -> k < List.length l -> List.length (take_until B l) <= k.
Proof.
  intros Hk Hlt. destruct (take_until_spec B l d) as (_ & H2 & _).
  destruct (Nat.le_gt_cases (List.length (take_until B l)) k) as [|Hgt]; [assumption|].
  rewrite (H2 k Hgt) in Hk. discriminate.
Qed.

Lemma nth_skipn {A} (n k : nat) (l : list A) (d : A) :
  nth k (skipn n l) d = nth (n + k) l d.
Proof.
  revert l. induction n as [|n IH]; intros l; [reflexivity|].
  destruct l as [|x l]; [now destruct k|]. apply IH.
Qed.

(** What a range is: its first line is the first the header pattern
    accepts, no line strictly inside it is a boundary, and it stops at a
    boundary or at the end of the document. *)
Lemma section_range_spec (B H : str -> bool) (lines : list str) (s e : nat) :
  section_range B H lines = Some (s, e) ->
  H (nth s lines []) = true
  /\ (forall j, j < s -> H (nth j lines []) = false)
  /\ s < e <= List.length lines
  /\ (forall j, s < j < e -> B (nth j lines []) = false)
  /\ (e < List.length lines -> B (nth e lines []) = true).
Proof.
  unfold section_range. intros Hr.
  destruct (findIndex H lines) as [k|] eqn:E; [|discriminate].
  assert (Hs : s = k) by congruence.
  assert (He : e = S k + List.length (take_until B (skipn (S k) lines)))
    by congruence.
  clear Hr. subst s e.
  destruct (findIndex_Some H lines k [] E) as (Hk & Hh & Hfirst).
  destruct (take_until_spec B (skipn (S k) lines) []) as (T1 & T2 & T3).
  rewrite length_skipn in T1, T3.
  repeat split; try assumption; try lia.
  - intros j Hj. replace j with (S k + (j - S k)) by lia.
    rewrite <- nth_skipn. apply T2. lia.
  - intros He. rewrite <- nth_skipn. apply T3. lia.
Qed.

(** Two ranges, the second of which starts later at a boundary line, have
    no line in common. *)
Lemma section_range_disjoint (B H1 H2 : str -> bool) (lines : list str)
      (s1 e1 s2 e2 : nat) :
  section_range B H1 lines = Some (s1, e1) ->
  section_range B H2 lines = Some (s2, e2) ->
  s1 < s2 -> B (nth s2 lines []) = true ->
  e1 <= s2.
Proof.
  intros R1 R2 Hlt Hb.
  destruct (section_range_spec B H2 lines s2 e2 R2) as (_ & _ & Hs2 & _).
  unfold section_range in R1.
  destruct (findIndex H1 lines) as [k|]; [|discriminate].
  assert (Hs : s1 = k) by congruence.
  assert (He : e1 = S k + List.length (take_until B (skipn (S k) lines)))
    by congruence.
  clear R1. subst s1 e1.
  assert (Hle : List.length (take_until B (skipn (S k) lines)) <= s2 - S k).
  { apply take_until_le with (d := []).
    - rewrite nth_skipn. replace (S k + (s2 - S k)) with s2 by lia. assumption.
    - rewrite length_skipn. lia. }
  lia.
Qed.

(** *** The cursor of the classifiers *)

Lemma all_entries_push {A} (entries : list A) (current : option A) (c : A) :
  all_entries (push entries current, Some c) = all_entries (entries, current) ++ [c].
Proof. reflexivity. Qed.

Lemma Forall_all_entries {A} (P : A -> Prop) (entries : list A) (current : option A) :
  Forall P (all_entries (entries, current))
  <-> Forall P entries /\ match current with Some c => P c | None => True end.
Proof.
  unfold all_entries, push. cbn [fst snd]. destruct current as [c|].
  - rewrite Forall_app. split; intros [H1 H2]; split; trivial.
    + now inversion H2.
    + now constructor.
  - tauto.
Qed.

Lemma fold_left_invariant {S L} (I : S -> Prop) (step : S -> L -> S) (ls : list L) :
  (forall st l, I st -> I (step st l)) ->
  forall st, I st -> I (fold_left step ls st).
Proof.
  intros Hstep. induction ls as [|l ls IH]; intros st H; [assumption|].
  apply IH, Hstep, H.
Qed.

(** *** Projects: the tech list of every entry is duplicate free *)

Lemma project_step_NoDup st l :
  Forall (fun e => NoDup (tech e)) (all_entries st) ->
  Forall (fun e => NoDup (tech e)) (all_entries (project_step st l)).
Proof.
  destruct st as [entries current]. intros H. unfold project_step.
  destruct (test fl_i projects_bare l); [assumption|].
  destruct (test fl marker_start l || test fl project_title_re l).
  { rewrite all_entries_push. apply Forall_app. split; [assumption|].
    repeat constructor. }
  apply Forall_all_entries in H. destruct H as [He Hc].
  assert (Hf : NoDup (tech (or_fresh current fresh_project))).
  { destruct current; [assumption|constructor]. }
  destruct (test fl_i tech_re l); [|destruct (test fl_i link_line_re l)];
    apply Forall_all_entries; (split; [assumption|]); cbn [tech];
    try assumption.
  apply array_from_set_NoDup.
Qed.

Lemma project_entries_NoDup lines :
  Forall (fun e => NoDup (tech e)) (project_entries lines).
Proof.
  unfold project_entries.
  pose proof (fold_left_invariant
                (fun st => Forall (fun e => NoDup (tech e)) (all_entries st))
                project_step lines project_step_NoDup ([], None)) as H.
  destruct (fold_left project_step lines ([], None)) as [entries current].
  apply H. constructor.
Qed.

Lemma extractProjects_NoDup text :
  Forall (fun e => NoDup (tech e)) (extractProjects text).
Proof.
  unfold extractProjects.
  destruct (negb (truthy _)); [constructor|apply project_entries_NoDup].
Qed.

Lemma extractSkills_NoDup text : NoDup (extractSkills text).
Proof.
  unfold extractSkills.
  destruct (negb (truthy _)); [constructor|apply array_from_set_NoDup].
Qed.

(** *** Experience: bullets *)

Lemma experience_entries_all lines :
  experience_entries lines = all_entries (fold_left experience_step lines ([], None)).
Proof.
  unfold experience_entries, all_entries.
  now destruct (fold_left experience_step lines ([], None)).
Qed.

Lemma extractExperience_lines text :
  extractExperience text = experience_entries (experience_lines text).
Proof.
  unfold extractExperience, experience_lines.
  destruct (fst (findSection text (literal experience_header fl_i false)));
    reflexivity.
Qed.

Lemma bullets_open_role l : bullets (open_role l) = [].
Proof.
  unfold open_role.
  destruct (2 <=? _); [destruct (findIndex _ _)|]; reflexivity.
Qed.

Lemma flat_bullets entries current :
  concat (map bullets (all_entries (entries, current)))
  = concat (map bullets entries) ++ bullets (or_fresh current fresh_experience).
Proof.
  unfold all_entries, push. cbn [fst snd]. destruct current as [c|]; cbn [or_fresh].
  - rewrite map_app, concat_app. simpl. now rewrite app_nil_r.
  - simpl. now rewrite app_nil_r.
Qed.

(** One line adds at most one bullet, after all the bullets there are, and
    changes none. *)
Lemma experience_step_bullets st l :
  concat (map bullets (all_entries (experience_step st l)))
  = concat (map bullets (all_entries st))
    ++ (if is_bullet_line l then [bullet_text l] else []).
Proof.
  destruct st as [entries current].
  unfold experience_step, is_bullet_line, bullet_text.
  destruct (test fl_i experience_bare l); cbn [negb andb].
  { now rewrite app_nil_r. }
  destruct (is_new_role l); cbn [negb andb].
  { rewrite all_entries_push, map_app, concat_app. cbn [map concat].
    now rewrite bullets_open_role. }
  destruct (test fl_i (years_re 12) l); cbn [negb andb].
  { rewrite !flat_bullets. cbn [or_fresh bullets]. now rewrite app_nil_r. }
  destruct (test fl marker_start l || (len l <? 140));
    rewrite !flat_bullets; cbn [or_fresh add_bullet bullets];
    now rewrite app_assoc.
Qed.

Lemma experience_fold_bullets lines st :
  concat (map bullets (all_entries (fold_left experience_step lines st)))
  = concat (map bullets (all_entries st))
    ++ map bullet_text (filter is_bullet_line lines).
Proof.
  revert st. induction lines as [|l lines IH]; intros st; cbn [fold_left filter map].
  - now rewrite app_nil_r.
  - rewrite IH, experience_step_bullets, <- app_assoc. f_equal.
    now destruct (is_bullet_line l).
Qed.

Lemma bullets_grow_refl es : bullets_grow es es.
Proof. intros i e H. exists e, []. now rewrite app_nil_r. Qed.

Lemma bullets_grow_trans es1 es2 es3 :
  bullets_grow es1 es2 -> bullets_grow es2 es3 -> bullets_grow es1 es3.
Proof.
  intros H12 H23 i e H.
  destruct (H12 i e H) as (e2 & m2 & H2 & B2).
  destruct (H23 i e2 H2) as (e3 & m3 & H3 & B3).
  exists e3, (m2 ++ m3). split; [assumption|].
  now rewrite B3, B2, app_assoc.
Qed.

Lemma bullets_grow_app es c : bullets_grow es (es ++ [c]).
Proof.
  intros i e H. exists e, []. rewrite app_nil_r. split; [|reflexivity].
  rewrite nth_error_app1; [assumption|]. apply nth_error_Some. congruence.
Qed.

Lemma bullets_grow_current entries current c' more :
  bullets c' = bullets (or_fresh current fresh_experience) ++ more ->
  bullets_grow (all_entries (entries, current)) (all_entries (entries, Some c')).
Proof.
  intros Hb i e H. unfold all_entries, push in *. cbn [fst snd] in *.
  destruct (Nat.lt_ge_cases i (List.length entries)) as [Hi|Hi].
  - exists e, []. rewrite app_nil_r. split; [|reflexivity].
    rewrite nth_error_app1 by assumption.
    destruct current; [rewrite nth_error_app1 in H by assumption|]; assumption.
  - destruct current as [c|].
    + rewrite nth_error_app2 in H by assumption.
      destruct (i - List.length entries) as [|k] eqn:E;
        [|destruct k; discriminate].
      injection H as <-. exists c', more. split; [|assumption].
      rewrite nth_error_app2 by assumption. now rewrite E.
    + apply nth_error_None in Hi. congruence.
Qed.

(** One line leaves every entry at its place and only appends to the
    bullets of the open one. *)
Lemma experience_step_grows st l :
  bullets_grow (all_entries st) (all_entries (experience_step st l)).
Proof.
  destruct st as [entries current]. unfold experience_step.
  destruct (test fl_i experience_bare l); [apply bullets_grow_refl|].
  destruct (is_new_role l); [rewrite all_entries_push; apply bullets_grow_app|].
  destruct (test fl_i (years_re 12) l).
  { apply bullets_grow_current with (more := []). cbn [bullets].
    now rewrite app_nil_r. }
  destruct (test fl marker_start l || (len l <? 140));
    eapply bullets_grow_current; reflexivity.
Qed.

Lemma experience_fold_grows lines st :
  bullets_grow (all_entries st) (all_entries (fold_left experience_step lines st)).
Proof.
  revert st. induction lines as [|l lines IH]; intros st; cbn [fold_left].
  - apply bullets_grow_refl.
  - eapply bullets_grow_trans; [apply experience_step_grows|apply IH].
Qed.

(** The bullet of a line, without regular expressions. *)
Lemma is_marker_class m :
  class_mem fl [CChar (ch "-"); CChar BULLET] m = is_marker m.
Proof.
  unfold class_mem, is_marker. cbn [ignoreCase fl existsb citem_mem].
  destruct (N.eqb_spec (ch "-") m), (N.eqb_spec m (ch "-")),
           (N.eqb_spec BULLET m), (N.eqb_spec m BULLET);
    try reflexivity; congruence.
Qed.

Lemma test_marker_start l : test fl marker_start l = starts_with_marker l.
Proof.
  unfold test, marker_start. cbn [Seqs]. rewrite search_Bol by reflexivity.
  destruct l as [|m rest]; [reflexivity|].
  cbn [ends marker one snd xorb starts_with_marker]. rewrite is_marker_class.
  now destruct (is_marker m).
Qed.

Lemma strip_marker_drop l : strip_marker l = trim (drop_marker l).
Proof.
  unfold strip_marker, replace_first, marker_strip. cbn [Seqs].
  rewrite search_Bol by reflexivity. f_equal.
  destruct l as [|m rest]; [reflexivity|].
  cbn [ends marker one snd xorb flat_map drop_marker]. rewrite is_marker_class.
  destruct (is_marker m); [|reflexivity].
  cbn [flat_map ends Opt space one snd xorb app].
  destruct rest as [|c rest']; [reflexivity|].
  unfold class_mem, one. cbn [ignoreCase fl existsb citem_mem snd].
  rewrite orb_false_r. now destruct (is_space c).
Qed.

Lemma bullet_text_spec l :
  bullet_text l
  = if starts_with_marker l || (len l <? 140) then trim (drop_marker l) else l.
Proof. unfold bullet_text. now rewrite test_marker_start, strip_marker_drop. Qed.

(** *** Experience: an entry without role and company *)

Lemma head_blank_app es c : head_blank es -> head_blank (es ++ [c]).
Proof. destruct es; [intros []|trivial]. Qed.

Lemma head_blank_current entries current c' :
  role c' = role (or_fresh current fresh_experience) ->
  company c' = company (or_fresh current fresh_experience) ->
  head_blank (all_entries (entries, current)) ->
  head_blank (all_entries (entries, Some c')).
Proof.
  unfold all_entries, push. cbn [fst snd].
  destruct entries as [|e entries]; destruct current as [c|];
    cbn [app head_blank or_fresh]; intros Hr Hc H; try assumption;
    try contradiction.
  now rewrite Hr, Hc.
Qed.

Lemma experience_step_head_blank st l :
  head_blank (all_entries st) -> head_blank (all_entries (experience_step st l)).
Proof.
  destruct st as [entries current]. intros H. unfold experience_step.
  destruct (test fl_i experience_bare l); [assumption|].
  destruct (is_new_role l); [rewrite all_entries_push; now apply head_blank_app|].
  destruct (test fl_i (years_re 12) l);
    [|destruct (test fl marker_start l || (len l <? 140))];
    apply head_blank_current with (current := current); trivial.
Qed.

(** When the first line the classifier reads is neither the header nor a
    new-role line, the first entry is opened with empty role and company
    and stays so. *)
Lemma first_line_blank l lines :
  test fl_i experience_bare l = false -> is_new_role l = false ->
  head_blank (experience_entries (l :: lines)).
Proof.
  intros Hh Hn. rewrite experience_entries_all. cbn [fold_left].
  apply (fold_left_invariant (fun st => head_blank (all_entries st))).
  - apply experience_step_head_blank.
  - unfold experience_step. rewrite Hh, Hn.
    destruct (test fl_i (years_re 12) l);
      [|destruct (test fl marker_start l || (len l <? 140))];
      now split.
Qed.

(** *** The title *)

Lemma lines_of_truthy text i l :
  nth_error (lines_of text) i = Some l -> truthy l = true.
Proof.
  intros H. apply nth_error_In in H. unfold lines_of, filter_Boolean in H.
  now apply filter_In in H.
Qed.

Lemma title_of_second lines l1 :
  nth_error lines 1 = Some l1 -> truthy l1 = true ->
  title_of lines
  = if (len l1 <? 80) && negb (contains_any title_words l1)
    then Some l1 else Some [].
Proof.
  intros H Ht. unfold title_of. now rewrite H, Ht, test_title.
Qed.

(* ------------------------------------------------------------------ *)
(** *** The claims *)

(** C1. parseResumeText returns a record for every string, without
    throwing, no field of which is undefined, and for the empty string
    every field has its empty default. *)
Theorem parseResumeText_total :
  (forall s : str, exists r t, parseResumeText s = Ok r /\ title r = Some t)
  /\ parseResumeText [] = Ok empty_record.
Proof.
  split.
  - intros s. exists (record_of s).
    assert (T : exists t, title_of (lines_of s) = Some t).
    { unfold title_of. destruct (nth_error (lines_of s) 1) as [l1|]; [|now exists []].
      destruct (truthy l1 && (len l1 <? 80) && negb (test fl_i title_re l1));
        eexists; reflexivity. }
    destruct T as [t T]. exists t. split; [apply parseResumeText_Ok|exact T].
  - reflexivity.
Qed.

(** C2. Scenario 1: name, title, email, skills and the single education
    entry of the Jane Doe resume. *)
Theorem scenario1_record :
  exists r, parseResumeText scenario1 = Ok r
    /\ name r = lit "Jane Doe"
    /\ title r = Some (lit "Software Engineer")
    /\ email (contact r) = lit "jane@x.com"
    /\ skills r = map lit ["Go"; "Rust"; "Python"]%string
    /\ education r = [MkEducation (lit "B.Tech Computer Science")
                                  (lit "XYZ University")
                                  (lit "2018 - 2022") []].
Proof.
  exists (record_of scenario1). split; [apply parseResumeText_Ok|].
  repeat split; vm_compute; reflexivity.
Qed.


(** C3, as stated: a line that merely starts with a keyword ("Experienced
    in Go") would end the section; the code goes on to the next header. *)
Lemma locateSection_as_stated_fails : ~ locateSection_as_stated.
Proof.
  intros H. specialize (H experienced_text experience_header fl_i false).
  vm_compute in H. discriminate.
Qed.

(** C3, amended. findSection starts the section at the first line the
    header pattern accepts, whether or not later lines match too, and ends
    it before the first later line that starts, whatever the case, with a
    whole keyword of the fixed list (no letter, digit or underscore right
    after it), or at the end of the document; it returns the lines of that
    range joined and trimmed, and the empty string when no line matches. *)
Theorem findSection_locates (blob : str) (p : regex) (f : flags) (g : bool) :
  let lines := split_chr LF blob in
  let section := fst (findSection blob (literal p f g)) in
  section = locateSection (starts_with_whole boundary_words) (test f p) blob
  /\ match section_range (starts_with_whole boundary_words) (test f p) lines with
     | None => (forall l, In l lines -> test f p l = false) /\ section = []
     | Some (s, e) =>
         test f p (nth s lines []) = true
         /\ (forall j, j < s -> test f p (nth j lines []) = false)
         /\ s < e <= List.length lines
         /\ (forall j, s < j < e ->
               starts_with_whole boundary_words (nth j lines []) = false)
         /\ (e < List.length lines ->
               starts_with_whole boundary_words (nth e lines []) = true)
         /\ section = trim (join [LF] (slice s e lines))
     end.
Proof.
  intros lines section.
  assert (E : section
              = locateSection (starts_with_whole boundary_words) (test f p) blob).
  { apply findSection_locate_fresh. }
  split; [assumption|].
  rewrite E. unfold locateSection. fold lines.
  destruct (section_range (starts_with_whole boundary_words) (test f p) lines)
    as [[s e]|] eqn:R.
  - destruct (section_range_spec _ _ _ _ _ R) as (H1 & H2 & H3 & H4 & H5).
    repeat split; try assumption; apply H3.
  - split; [|reflexivity].
    unfold section_range in R.
    destruct (findIndex (test f p) lines) eqn:F; [discriminate|].
    now apply findIndex_None.
Qed.




(** C5, as stated: the skills are not "Javascript" and "Typescript". *)
Lemma scenario3_as_stated_fails : ~ scenario3_as_stated.
Proof.
  intros (r & Hr & Hs). rewrite parseResumeText_Ok in Hr.
  injection Hr as <-. vm_compute in Hs. discriminate.
Qed.

(** C5, amended. For the Skills section "Languages: JavaScript,
    TypeScript" the skills are "JavaScript" and "TypeScript": the label up
    to and including the first colon is discarded, whitespace is collapsed,
    the first letter of every word is upper-cased and the other letters are
    left as they are; duplicates are dropped, the first occurrence kept. *)
Theorem scenario3_skills :
  (exists r, parseResumeText scenario3 = Ok r
     /\ skills r = map lit ["JavaScript"; "TypeScript"]%string)
  /\ cap (lit "  machine   learning ") = lit "Machine Learning"
  /\ cap (lit "node.js") = lit "Node.Js"
  /\ extractSkills (doc ["Skills"; "Go, rust; go"; "Tools: git, Go"]%string)
     = map lit ["Go"; "Rust"; "Git"]%string.
Proof.
  split.
  - exists (record_of scenario3). split; [apply parseResumeText_Ok|].
    vm_compute. reflexivity.
  - repeat split; vm_compute; reflexivity.
Qed.

(** C6, as stated: with "Skills" as the second line the title is "Skills",
    not the empty string. *)
Lemma title_as_stated_fails : ~ title_as_stated.
Proof.
  intros H.
  specialize (H skills_title_text (record_of skills_title_text) (lit "Skills")
                (parseResumeText_Ok _) eq_refl eq_refl).
  vm_compute in H. discriminate.
Qed.

(** C6, amended. The title is the empty string when there is no second
    line, when the second line has 80 characters or more, or when it
    contains, whatever the case, one of email, phone, linkedin, github,
    summary, objective, experience, education, projects; it is the second
    line when that line is shorter than 80 characters and contains none of
    these words nor any keyword of the section headers. *)
Theorem title_second_line :
  (forall text : str,
     exists r, parseResumeText text = Ok r /\
       match nth_error (lines_of text) 1 with
       | None => title r = Some []
       | Some l1 =>
           (80 <= len l1 \/ contains_any title_words l1 = true ->
            title r = Some [])
           /\ (len l1 < 80 ->
               contains_any title_words l1 = false ->
               contains_any boundary_words l1 = false ->
               title r = Some l1)
       end)
  /\ (exists r, parseResumeText education_title_text = Ok r /\ title r = Some []).
Proof.
  split.
  - intros text. exists (record_of text). split; [apply parseResumeText_Ok|].
    cbn [record_of title].
    destruct (nth_error (lines_of text) 1) as [l1|] eqn:E.
    + rewrite (title_of_second _ _ E (lines_of_truthy _ _ _ E)). split.
      * intros [Hlen|Hw].
        -- apply Nat.ltb_ge in Hlen. now rewrite Hlen.
        -- rewrite Hw. now rewrite andb_false_r.
      * intros Hlen Hw _. apply Nat.ltb_lt in Hlen. now rewrite Hlen, Hw.
    + unfold title_of. now rewrite E.
  - exists (record_of education_title_text). split; [apply parseResumeText_Ok|].
    vm_compute. reflexivity.
Qed.

Lemma title_second_line_witness :
  exists r, parseResumeText scenario1 = Ok r
    /\ title r = Some (lit "Software Engineer").
Proof.
  destruct (proj1 title_second_line scenario1) as (r & Hr & H).
  exists r. split; [exact Hr|].
  change (nth_error (lines_of scenario1) 1)
    with (Some (lit "Software Engineer")) in H.
  apply (proj2 H); [vm_compute; lia|reflexivity|reflexivity].
Defined.

(** C7. The skills, the links and the tech list of every project have no
    element twice. *)
Theorem no_duplicates (text : str) :
  exists r, parseResumeText text = Ok r
    /\ NoDup (skills r)
    /\ NoDup (links (contact r))
    /\ Forall (fun p => NoDup (tech p)) (projects r).
Proof.
  exists (record_of text). split; [apply parseResumeText_Ok|].
  cbn [record_of skills links contact projects]. repeat split.
  - apply extractSkills_NoDup.
  - apply array_from_set_NoDup.
  - apply extractProjects_NoDup.
Qed.

(** C8. The bullets of the experience entries, read entry after entry, are
    the bullets of the bullet lines of the Experience section in the order
    of the lines; the bullet of a line is the line without a leading "-" or
    bullet mark (and one space after it), trimmed; and a line of the
    section leaves every entry built so far at its place, with its bullets
    and at most new ones after them. *)
Theorem bullets_in_order (text : str) :
  concat (map bullets (extractExperience text))
  = map bullet_text (filter is_bullet_line (experience_lines text))
  /\ (forall l, bullet_text l
                = if starts_with_marker l || (len l <? 140)
                  then trim (drop_marker l) else l)
  /\ (forall st l,
        bullets_grow (all_entries st) (all_entries (experience_step st l)))
  /\ (forall lines more,
        bullets_grow (experience_entries lines)
                     (experience_entries (lines ++ more))).
Proof.
  repeat split.
  - rewrite extractExperience_lines, experience_entries_all.
    now rewrite experience_fold_bullets.
  - apply bullet_text_spec.
  - apply experience_step_grows.
  - intros lines more. rewrite !experience_entries_all, fold_left_app.
    apply experience_fold_grows.
Qed.


(** C10. Some input gives an experience entry whose role and company are
    both empty: whenever the first line the classifier reads after the
    header is not a new-role line, as in "2019 to present". *)
Theorem experience_blank_entry :
  extractExperience blank_role_text
  = [MkExperience [] [] (lit "2019 to present") [lit "Shipped the billing service"]]
  /\ (exists text e, In e (extractExperience text) /\ role e = [] /\ company e = [])
  /\ (forall l lines,
        test fl_i experience_bare l = false -> is_new_role l = false ->
        head_blank (experience_entries (l :: lines))).
Proof.
  assert (E : extractExperience blank_role_text
              = [MkExperience [] [] (lit "2019 to present")
                              [lit "Shipped the billing service"]])
    by (vm_compute; reflexivity).
  split; [assumption|]. split.
  - exists blank_role_text, (MkExperience [] [] (lit "2019 to present")
                                         [lit "Shipped the billing service"]).
    rewrite E. repeat split. now left.
  - apply first_line_blank.
Qed.

Lemma experience_blank_entry_witness :
  head_blank (experience_entries
                [lit "2019 to present"; lit "Shipped the billing service"]).
Proof.
  apply (proj2 (proj2 experience_blank_entry)); reflexivity.
Defined.

End Properties.

(* ================================================================== *)
(** ** Further properties *)
(* ================================================================== *)

Module Extra.
Import JS Parser Spec App Pdf SpecX Properties.

(** *** The matcher only returns words of the pattern *)

Lemma in_one ok p q :
  In q (one ok p) -> exists c, snd p = c :: snd q /\ ok c = true /\ fst q = Some c.
Proof.
  unfold one. destruct (snd p) as [|c s]; [intros []|].
  destruct (ok c) eqn:E; [|intros []].
  intros [<-|[]]. exists c. now repeat split.
Qed.

Lemma in_guard b p q : In q (guard b p) -> q = p.
Proof. unfold guard. destruct b; [intros [<-|[]]; reflexivity|intros []]. Qed.

Lemma star_loop_sound (P : str -> Prop) step fuel p q :
  (forall p' q', In q' (step p') -> exists w, snd p' = w ++ snd q' /\ P w) ->
  In q (star_loop step fuel p) ->
  exists ws, snd p = concat ws ++ snd q /\ Forall P ws.
Proof.
  intros Hstep. revert p. induction fuel as [|k IH]; intros p; cbn [star_loop].
  - intros [<-|[]]. exists []. now split.
  - intros H. apply in_app_or in H. destruct H as [H|[<-|[]]].
    + apply in_flat_map in H. destruct H as (q1 & H1 & H2).
      destruct (len (snd q1) <? len (snd p)); [|destruct H2].
      destruct (Hstep _ _ H1) as (w & Hw & Pw).
      destruct (IH _ H2) as (ws & Hws & Pws).
      exists (w :: ws). split; [|now constructor].
      cbn [concat]. rewrite <- app_assoc, <- Hws. exact Hw.
    + exists []. now split.
Qed.

Lemma ends_sound f r p q :
  In q (ends f r p) -> exists w, snd p = w ++ snd q /\ lang f r w.
Proof.
  revert p q. induction r as [| a | neg items | | r1 IH1 r2 IH2 | r1 IH1 r2 IH2
                              | r1 IH1 | | | ]; intros p q; cbn [ends lang].
  - intros [<-|[]]. now exists [].
  - intros H. apply in_one in H. destruct H as (c & Hs & Hc & _).
    exists [c]. split; [assumption|]. exists c. split; [reflexivity|].
    now apply N.eqb_eq.
  - intros H. apply in_one in H. destruct H as (c & Hs & Hc & _).
    exists [c]. split; [assumption|]. now exists c.
  - intros H. apply in_one in H. destruct H as (c & Hs & Hc & _).
    exists [c]. split; [assumption|]. exists c. split; [reflexivity|].
    now apply negb_true_iff.
  - intros H. apply in_flat_map in H. destruct H as (q1 & H1 & H2).
    destruct (IH1 _ _ H1) as (w1 & E1 & L1).
    destruct (IH2 _ _ H2) as (w2 & E2 & L2).
    exists (w1 ++ w2). split; [now rewrite E1, E2, app_assoc|].
    now exists w1, w2.
  - intros H. apply in_app_or in H. destruct H as [H|H].
    + destruct (IH1 _ _ H) as (w & E & L). exists w. split; [assumption|now left].
    + destruct (IH2 _ _ H) as (w & E & L). exists w. split; [assumption|now right].
  - intros H.
    destruct (star_loop_sound (lang f r1) (ends f r1) _ _ _ IH1 H) as (ws & E & L).
    exists (concat ws). split; [assumption|]. now exists ws.
  - intros H. apply in_guard in H. subst q. now exists [].
  - intros H. apply in_guard in H. subst q. now exists [].
  - intros H. apply in_guard in H. subst q. now exists [].
Qed.

Lemma consumed_suffix s q w : s = w ++ snd q -> consumed s q = w.
Proof.
  intros ->. unfold consumed, len. rewrite length_app.
  rewrite Nat.add_sub, firstn_app, Nat.sub_diag, firstn_all.
  cbn [firstn]. apply app_nil_r.
Qed.

Lemma match_at_sound f r p q :
  match_at f r p = Some q -> exists w, snd p = w ++ snd q /\ lang f r w.
Proof.
  unfold match_at. destruct (ends f r p) as [|q' l] eqn:E; [discriminate|].
  intros [= ->]. apply (ends_sound f r p). rewrite E. now left.
Qed.

(** A successful search splits the input around a word of the pattern. *)
Lemma search_sound f r pre prev s m :
  search f r pre prev s = Some m ->
  pre ++ s = before m ++ matched m ++ snd (after m) /\ lang f r (matched m).
Proof.
  revert pre prev. induction s as [|c s IH]; intros pre prev; cbn [search].
  - destruct (match_at f r _) as [q|] eqn:E; [|discriminate].
    intros [= <-]. cbn [before matched after].
    destruct (match_at_sound _ _ _ _ E) as (w & Hw & L). cbn [snd] in Hw.
    rewrite (consumed_suffix _ _ _ Hw). split; [now rewrite <- Hw|assumption].
  - destruct (match_at f r _) as [q|] eqn:E.
    + intros [= <-]. cbn [before matched after].
      destruct (match_at_sound _ _ _ _ E) as (w & Hw & L). cbn [snd] in Hw.
      rewrite (consumed_suffix _ _ _ Hw). split; [now rewrite <- Hw|assumption].
    + intros H. apply IH in H. destruct H as [H L]. split; [|assumption].
      rewrite <- H, <- app_assoc. reflexivity.
Qed.

Lemma str_match_sound f r s m :
  str_match f r s = Some m -> substring m s /\ lang f r m.
Proof.
  unfold str_match. destruct (search f r [] None s) as [x|] eqn:E; [|discriminate].
  intros [= <-]. destruct (search_sound _ _ _ _ _ _ E) as [H L].
  split; [|assumption]. exists (before x), (snd (after x)). exact H.
Qed.


(** *** trim *)

Lemma trim_start_spaces s : forallb is_space s = true -> trim_start s = [].
Proof.
  induction s as [|c s IH]; cbn [forallb trim_start]; [reflexivity|].
  intros H. apply andb_true_iff in H. destruct H as [Hc Hs]. rewrite Hc. auto.
Qed.

(** [trim_start] on a string with a last character. *)
Lemma trim_start_snoc s c :
  trim_start (s ++ [c])
  = if forallb is_space s then (if is_space c then [] else [c])
    else trim_start s ++ [c].
Proof.
  induction s as [|x s IH]; cbn [app trim_start forallb].
  - now destruct (is_space c).
  - destruct (is_space x); cbn [andb]; [exact IH|reflexivity].
Qed.

Lemma forallb_rev {A} (g : A -> bool) (l : list A) :
  forallb g (rev l) = forallb g l.
Proof.
  induction l as [|x l IH]; [reflexivity|].
  cbn [rev forallb]. rewrite forallb_app, IH. cbn [forallb].
  rewrite andb_true_r. apply andb_comm.
Qed.

(** [trim_end], from the front. *)
Lemma trim_end_cons c s :
  trim_end (c :: s)
  = if forallb is_space s then (if is_space c then [] else [c])
    else c :: trim_end s.
Proof.
  unfold trim_end. cbn [rev]. rewrite trim_start_snoc, forallb_rev.
  destruct (forallb is_space s).
  - now destruct (is_space c).
  - now rewrite rev_app_distr.
Qed.

Lemma trim_end_spaces s : forallb is_space s = true -> trim_end s = [].
Proof.
  intros H. unfold trim_end. rewrite trim_start_spaces; [reflexivity|].
  now rewrite forallb_rev.
Qed.

Lemma trim_end_nil_iff s : trim_end s = [] <-> forallb is_space s = true.
Proof.
  split; [|apply trim_end_spaces].
  induction s as [|c s IH]; [reflexivity|].
  rewrite trim_end_cons. cbn [forallb].
  destruct (forallb is_space s); [|discriminate].
  destruct (is_space c); [reflexivity|discriminate].
Qed.

Lemma trim_start_nil_iff s : trim_start s = [] <-> forallb is_space s = true.
Proof.
  split; [|apply trim_start_spaces].
  induction s as [|c s IH]; cbn [trim_start forallb]; [reflexivity|].
  destruct (is_space c); [exact IH|discriminate].
Qed.

(** What [trim_start] returns is empty or starts with a character that is
    not white space, and is the end of its argument. *)
Lemma trim_start_head s :
  match trim_start s with [] => True | c :: _ => is_space c = false end.
Proof.
  induction s as [|c s IH]; cbn [trim_start]; [exact I|].
  destruct (is_space c) eqn:E; [exact IH|exact E].
Qed.

Lemma trim_start_suffix s : exists pre, s = pre ++ trim_start s /\ forallb is_space pre = true.
Proof.
  induction s as [|c s (pre & IH & Hp)]; cbn [trim_start].
  - now exists [].
  - destruct (is_space c) eqn:E.
    + exists (c :: pre). cbn [app forallb]. rewrite E, Hp. split; [now f_equal|reflexivity].
    + now exists [].
Qed.

Lemma trim_start_fixed s :
  match s with [] => True | c :: _ => is_space c = false end -> trim_start s = s.
Proof. destruct s as [|c s]; [reflexivity|]. cbn [trim_start]. now intros ->. Qed.

Lemma trim_end_prefix s : exists post, s = trim_end s ++ post /\ forallb is_space post = true.
Proof.
  unfold trim_end. destruct (trim_start_suffix (rev s)) as (pre & H & Hp).
  exists (rev pre). split; [|now rewrite forallb_rev].
  rewrite <- rev_app_distr, <- H. symmetry. apply rev_involutive.
Qed.

Lemma trim_end_head s c t :
  trim_end s = c :: t -> exists t', s = c :: t'.
Proof.
  destruct (trim_end_prefix s) as (post & H & _). intros E. rewrite E in H.
  now exists (t ++ post).
Qed.

(** The last character of what [trim_end] returns is not white space. *)
Lemma trim_end_last s :
  match rev (trim_end s) with [] => True | c :: _ => is_space c = false end.
Proof. unfold trim_end. rewrite rev_involutive. apply trim_start_head. Qed.

Lemma trim_end_fixed s :
  match rev s with [] => True | c :: _ => is_space c = false end -> trim_end s = s.
Proof.
  intros H. unfold trim_end. rewrite trim_start_fixed by assumption.
  apply rev_involutive.
Qed.

Lemma trim_nil_iff s : trim s = [] <-> forallb is_space s = true.
Proof.
  unfold trim. rewrite trim_end_nil_iff.
  destruct (trim_start_suffix s) as (pre & H & Hp).
  rewrite H at 2. rewrite forallb_app, Hp. reflexivity.
Qed.

(** [trim] returns a piece of its argument between white space. *)
Lemma trim_middle s :
  exists pre post, s = pre ++ trim s ++ post
                   /\ forallb is_space pre = true /\ forallb is_space post = true.
Proof.
  unfold trim. destruct (trim_start_suffix s) as (pre & H & Hp).
  destruct (trim_end_prefix (trim_start s)) as (post & H' & Hq).
  exists pre, post. repeat split; try assumption.
  rewrite <- H'. exact H.
Qed.

Lemma trim_In c s : In c (trim s) -> In c s.
Proof.
  destruct (trim_middle s) as (pre & post & H & _). intros Hc. rewrite H.
  apply in_or_app. right. apply in_or_app. now left.
Qed.

(** The first and the last character of what [trim] returns are not white
    space. *)
Lemma trim_head s :
  match trim s with [] => True | c :: _ => is_space c = false end.
Proof.
  unfold trim. destruct (trim_end (trim_start s)) as [|c t] eqn:E; [exact I|].
  destruct (trim_end_head _ _ _ E) as (t' & Ht).
  pose proof (trim_start_head s) as H. now rewrite Ht in H.
Qed.

Lemma trim_last s :
  match rev (trim s) with [] => True | c :: _ => is_space c = false end.
Proof. unfold trim. apply trim_end_last. Qed.

(** [trim] changes nothing in a string that has no white space at either
    end, so trimming twice is trimming once. *)
Lemma trim_fixed s :
  match s with [] => True | c :: _ => is_space c = false end ->
  match rev s with [] => True | c :: _ => is_space c = false end ->
  trim s = s.
Proof.
  intros H1 H2. unfold trim. rewrite trim_start_fixed by assumption.
  now apply trim_end_fixed.
Qed.

Lemma trim_idempotent s : trim (trim s) = trim s.
Proof. apply trim_fixed; [apply trim_head|apply trim_last]. Qed.

Lemma truthy_iff s : truthy s = true <-> s <> [].
Proof. destruct s; cbn [truthy]; split; intros H; congruence. Qed.


(** *** split and join *)

Lemma split_chr_cons c s : exists h t, split_chr c s = h :: t.
Proof.
  destruct s as [|x s]; cbn [split_chr]; [now eexists _, _|].
  destruct (x =? c)%N; [now eexists _, _|].
  destruct (split_chr c s); now eexists _, _.
Qed.

Lemma split_chr_app c a b :
  split_chr c (a ++ c :: b) = split_chr c a ++ split_chr c b.
Proof.
  induction a as [|x a IH]; cbn [app split_chr].
  - now rewrite N.eqb_refl.
  - destruct (x =? c)%N; [now rewrite IH|].
    rewrite IH. destruct (split_chr_cons c a) as (h & t & ->). reflexivity.
Qed.

Lemma split_chr_single c s : ~ In c s -> split_chr c s = [s].
Proof.
  induction s as [|x s IH]; intros H; cbn [split_chr]; [reflexivity|].
  destruct (N.eqb_spec x c) as [->|_]; [exfalso; apply H; now left|].
  rewrite IH; [reflexivity|]. intros Hc. apply H. now right.
Qed.

Lemma split_chr_no_sep c s x : In x (split_chr c s) -> ~ In c x.
Proof.
  revert x. induction s as [|y s IH]; intros x; cbn [split_chr].
  - intros [<-|[]] [].
  - destruct (N.eqb_spec y c) as [->|Hy].
    + intros [<-|H]; [intros []|now apply IH].
    + destruct (split_chr_cons c s) as (h & t & E). rewrite E in *.
      intros [<-|H].
      * intros [Hc|Hc]; [congruence|]. apply (IH h); [now left|assumption].
      * apply IH. now right.
Qed.

Lemma join_cons sep x y l : join sep (x :: y :: l) = x ++ sep ++ join sep (y :: l).
Proof. reflexivity. Qed.

(** Joining the pieces of a split gives the string back. *)
Lemma join_split c s : join [c] (split_chr c s) = s.
Proof.
  induction s as [|x s IH]; cbn [split_chr]; [reflexivity|].
  destruct (split_chr_cons c s) as (h & t & E). rewrite E in *.
  destruct (N.eqb_spec x c) as [->|_].
  - rewrite join_cons, IH. reflexivity.
  - destruct t as [|h' t].
    + cbn [join] in *. now rewrite IH.
    + rewrite join_cons in *. rewrite <- IH. reflexivity.
Qed.

(** Splitting a join gives the pieces back, when none holds the
    separator. *)
Lemma split_join c ls :
  ls <> [] -> Forall (fun l => ~ In c l) ls -> split_chr c (join [c] ls) = ls.
Proof.
  induction ls as [|x ls IH]; intros Hne H; [congruence|].
  inversion_clear H as [|? ? Hx Hls].
  destruct ls as [|y ls].
  - cbn [join]. now apply split_chr_single.
  - rewrite join_cons. cbn [app]. rewrite split_chr_app.
    unfold str in *. rewrite IH by (congruence || assumption).
    now rewrite split_chr_single.
Qed.

(** *** The normalized lines *)

Lemma section_lines_lines_of s : section_lines s = lines_of s.
Proof. reflexivity. Qed.

Lemma lines_of_app a b : lines_of (a ++ LF :: b) = lines_of a ++ lines_of b.
Proof.
  unfold lines_of, filter_Boolean. now rewrite split_chr_app, map_app, filter_app.
Qed.

Lemma lines_of_nil : lines_of [] = [].
Proof. reflexivity. Qed.

Lemma lines_of_join ls : lines_of (join [LF] ls) = flat_map lines_of ls.
Proof.
  induction ls as [|x ls IH]; [reflexivity|].
  destruct ls as [|y ls].
  - cbn [join flat_map]. now rewrite app_nil_r.
  - rewrite join_cons. cbn [app]. rewrite lines_of_app, IH. reflexivity.
Qed.

Lemma normal_line_trim l : normal_line l -> trim l = l.
Proof. intros (_ & _ & H1 & H2). now apply trim_fixed. Qed.

Lemma lines_of_normal l : normal_line l -> lines_of l = [l].
Proof.
  intros H. pose proof (normal_line_trim l H) as Ht. destruct H as (Hne & Hlf & _).
  unfold lines_of, filter_Boolean. rewrite split_chr_single by assumption.
  cbn [map filter]. rewrite Ht. destruct l; [congruence|reflexivity].
Qed.

Lemma lines_of_all_normal text : Forall normal_line (lines_of text).
Proof.
  apply Forall_forall. intros l H. unfold lines_of, filter_Boolean in H.
  apply filter_In in H. destruct H as [H Ht]. apply in_map_iff in H.
  destruct H as (x & <- & Hx). repeat split.
  - now apply truthy_iff.
  - intros Hlf. apply trim_In in Hlf. now apply (split_chr_no_sep LF text x).
  - apply trim_head.
  - apply trim_last.
Qed.

Lemma flat_map_singleton {A} (g : A -> list A) (l : list A) :
  Forall (fun x => g x = [x]) l -> flat_map g l = l.
Proof.
  induction 1 as [|x l Hx _ IH]; [reflexivity|].
  cbn [flat_map]. now rewrite Hx, IH.
Qed.

Lemma lines_of_join_normal ls : Forall normal_line ls -> lines_of (join [LF] ls) = ls.
Proof.
  intros H. rewrite lines_of_join. apply flat_map_singleton.
  eapply Forall_impl; [|exact H]. apply lines_of_normal.
Qed.

Lemma lines_of_blob text : lines_of (blob_of text) = lines_of text.
Proof. apply lines_of_join_normal, lines_of_all_normal. Qed.

Lemma blob_of_blob text : blob_of (blob_of text) = blob_of text.
Proof. unfold blob_of at 1. now rewrite lines_of_blob. Qed.

Lemma record_of_blob text : record_of (blob_of text) = record_of text.
Proof. unfold record_of. now rewrite blob_of_blob, lines_of_blob. Qed.


(** *** match and replace with the g flag *)

Ltac app_norm := repeat first [rewrite <- app_assoc | progress cbn [app]].

(** The scan cuts the input into matches, each a word of the pattern, and
    the text between them. *)
Lemma scan_sound f r fuel prev s ms tl :
  scan fuel f r prev s = (ms, tl) ->
  concat (map (fun bm => fst bm ++ snd bm) ms) ++ tl = s
  /\ Forall (fun bm => lang f r (snd bm)) ms.
Proof.
  revert prev s ms tl. induction fuel as [|k IH]; intros prev s ms tl; cbn [scan].
  - intros [= <- <-]. now split.
  - destruct (search f r [] prev s) as [m|] eqn:E; [|intros [= <- <-]; now split].
    destruct (search_sound _ _ _ _ _ _ E) as [Hs L]. cbn [app] in Hs.
    destruct (matched m) as [|x xs] eqn:Em.
    + destruct (snd (after m)) as [|c s'] eqn:Ea.
      * intros [= <- <-]. cbn [map concat fst snd].
        split; [|constructor; [exact L|constructor]].
        rewrite Hs. now rewrite !app_nil_r.
      * destruct (scan k f r (Some c) s') as [ms' tl'] eqn:Ek.
        destruct (IH _ _ _ _ Ek) as [Hk Lk].
        intros [= <- <-]. rewrite Hs. cbn [map concat fst snd app].
        rewrite app_nil_r. destruct ms' as [|[b x] ms'].
        -- cbn [map concat app] in *. subst tl'.
           split; [now rewrite app_nil_r|constructor; [exact L|constructor]].
        -- cbn [map concat fst snd app] in *. split.
           ++ rewrite <- Hk. app_norm. reflexivity.
           ++ inversion_clear Lk. constructor; [exact L|]. now constructor.
    + destruct (scan k f r (fst (after m)) (snd (after m))) as [ms' tl'] eqn:Ek.
      destruct (IH _ _ _ _ Ek) as [Hk Lk].
      intros [= <- <-]. cbn [map concat fst snd]. split.
      * rewrite Hs, <- Hk. app_norm. reflexivity.
      * constructor; [exact L|assumption].
Qed.

(** Replacing every match by a string that looks the same through [H]
    gives a string that looks the same through [H]. *)
Lemma replace_all_hom {B} (H : str -> list B) f r fn s :
  (forall a b, H (a ++ b) = H a ++ H b) ->
  (forall m, lang f r m -> H (fn m) = H m) ->
  H (replace_all f r fn s) = H s.
Proof.
  intros Happ Hfn. unfold replace_all.
  destruct (scan (S (len s)) f r None s) as [ms tl] eqn:E.
  destruct (scan_sound _ _ _ _ _ _ _ E) as [Hs L].
  rewrite <- Hs. rewrite !Happ. f_equal.
  clear E Hs. induction L as [|[b x] ms Lx _ IH]; [reflexivity|].
  cbn [map concat fst snd] in *. rewrite !Happ, IH, Hfn by assumption. reflexivity.
Qed.

(** Every match that [match] with the g flag returns is a word of the
    pattern and occurs in the input. *)
Lemma scan_substrings f r fuel prev s ms tl :
  scan fuel f r prev s = (ms, tl) ->
  Forall (fun bm => substring (snd bm) s) ms.
Proof.
  intros E. destruct (scan_sound _ _ _ _ _ _ _ E) as [Hs _]. clear E.
  revert s Hs. induction ms as [|[b x] ms IH]; intros s Hs; [constructor|].
  cbn [map concat fst snd] in Hs. subst s. constructor.
  - cbn [snd]. exists b, (concat (map (fun bm => fst bm ++ snd bm) ms) ++ tl).
    app_norm. reflexivity.
  - specialize (IH _ eq_refl). eapply Forall_impl; [|exact IH].
    intros [b' x'] (pre & post & Hx). cbn [snd] in *.
    exists ((b ++ x) ++ pre), post. unfold str in *.
    rewrite <- (app_assoc (b ++ x)), Hx. app_norm. reflexivity.
Qed.

Lemma str_match_all_sound f r s x :
  In x (or_empty (str_match_all f r s)) -> substring x s /\ lang f r x.
Proof.
  unfold str_match_all.
  destruct (scan (S (len s)) f r None s) as [ms tl] eqn:E. cbn [fst].
  pose proof (scan_substrings _ _ _ _ _ _ _ E) as Hsub.
  destruct (scan_sound _ _ _ _ _ _ _ E) as [_ L].
  destruct ms as [|bm ms]; [intros []|]. cbn [or_empty].
  intros H. apply in_map_iff in H. destruct H as (bm' & <- & Hin).
  rewrite Forall_forall in Hsub, L. split; [now apply Hsub|now apply L].
Qed.


(** *** What the words of a pattern look like *)

Lemma is_space_bounds c :
  is_space c = true -> (c = 32 \/ (9 <= c /\ c <= 13) \/ 160 <= c)%N.
Proof.
  unfold is_space. rewrite !orb_true_iff, !in_range_spec, !N.eqb_eq. lia.
Qed.

(** A printable ASCII character. *)
Lemma printable_visible c : (33 <= c <= 126)%N -> is_space c = false.
Proof.
  intros H. destruct (is_space c) eqn:E; [|reflexivity].
  apply is_space_bounds in E. lia.
Qed.

Lemma to_upper_cases c :
  (to_upper c = c /\ is_lower c = false)
  \/ (to_upper c = c - 32 /\ 97 <= c <= 122)%N.
Proof.
  unfold to_upper. destruct (is_lower c) eqn:E; [right|left; now split].
  split; [reflexivity|]. now apply in_range_spec.
Qed.

Lemma to_lower_cases c :
  (to_lower c = c /\ is_upper c = false)
  \/ (to_lower c = c + 32 /\ 65 <= c <= 90)%N.
Proof.
  unfold to_lower. destruct (is_upper c) eqn:E; [right|left; now split].
  split; [reflexivity|]. now apply in_range_spec.
Qed.

Lemma is_space_to_upper c : is_space (to_upper c) = is_space c.
Proof.
  destruct (to_upper_cases c) as [[-> _]|[-> H]]; [reflexivity|].
  rewrite !printable_visible by lia. reflexivity.
Qed.

Lemma is_space_canon f a c : canon f a = canon f c -> is_space a = is_space c.
Proof.
  unfold canon. destruct (ignoreCase f); [|congruence].
  intros H. rewrite <- (is_space_to_upper a), <- (is_space_to_upper c). congruence.
Qed.

(** A character that is not a letter only matches itself. *)
Lemma canon_not_letter f a c :
  canon f a = canon f c -> is_upper a = false -> is_lower a = false -> c = a.
Proof.
  unfold canon. destruct (ignoreCase f); [|congruence].
  intros H Hu Hl.
  assert (Ha : ~ (65 <= a <= 90)%N).
  { intros Hr. apply in_range_spec in Hr. unfold is_upper in Hu. congruence. }
  assert (Ha' : ~ (97 <= a <= 122)%N).
  { intros Hr. apply in_range_spec in Hr. unfold is_lower in Hl. congruence. }
  destruct (to_upper_cases a) as [[Ea _]|[_ Hr]]; [|contradiction].
  destruct (to_upper_cases c) as [[Ec _]|[Ec Hr]]; [congruence|].
  rewrite Ea, Ec in H. lia.
Qed.

(** The words of a literal have its length and its characters, up to
    case. *)
Lemma lang_Str f w x :
  lang f (Str w) x -> Forall2 (fun a c => canon f a = canon f c) w x.
Proof.
  revert x. induction w as [|a w IH]; intros x; cbn [Str lang].
  - intros ->. constructor.
  - destruct w as [|b w].
    + intros (c & -> & H). now repeat constructor.
    + intros (w1 & w2 & -> & (c & -> & H) & H2). constructor; [assumption|].
      now apply IH.
Qed.

(** Case-sensitive literals only match themselves. *)
Lemma lang_Str_exact w x : lang fl (Str w) x -> x = w.
Proof.
  intros H. apply lang_Str in H. induction H as [|a c w x Hc _ IH]; [reflexivity|].
  cbn [canon fl ignoreCase] in Hc. now subst.
Qed.

(** One character classes, iterated. *)
Lemma lang_Star_chars (P : N -> Prop) f r x :
  (forall w, lang f r w -> exists c, w = [c] /\ P c) ->
  lang f (Star r) x -> Forall P x.
Proof.
  intros Hr (ws & -> & H). induction H as [|w ws Hw _ IH]; [constructor|].
  destruct (Hr _ Hw) as (c & -> & Pc). cbn [concat app]. now constructor.
Qed.

Lemma lang_Plus_chars (P : N -> Prop) f r x :
  (forall w, lang f r w -> exists c, w = [c] /\ P c) ->
  lang f (Plus r) x -> exists c t, x = c :: t /\ P c /\ Forall P t.
Proof.
  intros Hr (w1 & w2 & -> & H1 & H2).
  destruct (Hr _ H1) as (c & -> & Pc). exists c, w2.
  repeat split; [assumption|]. now apply (lang_Star_chars P f r).
Qed.

Lemma lang_AtLeast_chars (P : N -> Prop) f r n x :
  (forall w, lang f r w -> exists c, w = [c] /\ P c) ->
  lang f (AtLeast n r) x -> n <= List.length x /\ Forall P x.
Proof.
  intros Hr. revert x. induction n as [|n IH]; intros x; cbn [AtLeast].
  - intros H. split; [lia|]. now apply (lang_Star_chars P f r).
  - intros (w1 & w2 & -> & H1 & H2). destruct (Hr _ H1) as (c & -> & Pc).
    destruct (IH _ H2) as [Hn Hf]. cbn [app List.length]. split; [lia|].
    now constructor.
Qed.

Lemma lang_Cls f neg items w :
  lang f (Cls neg items) w ->
  exists c, w = [c] /\ xorb neg (class_mem f items c) = true.
Proof. exact (fun H => H). Qed.


Lemma is_space_to_lower c : is_space (to_lower c) = is_space c.
Proof.
  destruct (to_lower_cases c) as [[-> _]|[-> H]]; [reflexivity|].
  rewrite !printable_visible by lia. reflexivity.
Qed.

(** A class of printable ASCII characters has no white space in it, with
    or without the i flag. *)
Lemma class_mem_visible f items c :
  Forall (fun it => forall x, citem_mem it x = true -> (33 <= x <= 126)%N) items ->
  class_mem f items c = true -> visible c.
Proof.
  intros Hall H. unfold class_mem in H.
  assert (Hex : exists it x, In it items /\ citem_mem it x = true
                             /\ is_space x = is_space c).
  { destruct (ignoreCase f); apply existsb_exists in H; destruct H as (it & Hin & H).
    - apply orb_true_iff in H. destruct H as [H|H];
        [apply orb_true_iff in H; destruct H as [H|H]|].
      + now exists it, c.
      + exists it, (to_upper c). repeat split; try assumption. apply is_space_to_upper.
      + exists it, (to_lower c). repeat split; try assumption. apply is_space_to_lower.
    - now exists it, c. }
  destruct Hex as (it & x & Hin & Hm & Hs).
  rewrite Forall_forall in Hall. unfold visible. rewrite <- Hs.
  apply printable_visible. now apply (Hall it).
Qed.

Lemma lang_Str_visible f w x :
  lang f (Str w) x -> forallb (fun a => negb (is_space a)) w = true ->
  Forall visible x.
Proof.
  intros H. apply lang_Str in H.
  induction H as [|a c w x Hc _ IH]; cbn [forallb]; [constructor|].
  intros Hw. apply andb_true_iff in Hw. destruct Hw as [Ha Hw].
  constructor; [|now apply IH]. unfold visible.
  rewrite <- (is_space_canon f a c Hc). now apply negb_true_iff.
Qed.

(** *** The contact fields *)

Ltac eval_ch :=
  repeat match goal with
         | H : context [ch ?a] |- _ =>
             let v := eval vm_compute in (ch a) in change (ch a) with v in H
         | |- context [ch ?a] =>
             let v := eval vm_compute in (ch a) in change (ch a) with v
         end.

Ltac range_item :=
  let x := fresh "x" in
  let Hx := fresh "Hx" in
  intros x Hx; cbn [citem_mem AZ az d09] in Hx; eval_ch;
  first [apply in_range_spec in Hx; lia
        |apply N.eqb_eq in Hx; lia].

Ltac range_items := repeat (apply Forall_cons; [range_item|]); apply Forall_nil.

Lemma email_user_chars w :
  lang fl_im (Cls false [AZ; d09; CChar (ch "."); CChar (ch "_"); CChar (ch "%");
                         CChar (ch "+"); CChar (ch "-")]) w ->
  exists c, w = [c] /\ visible c.
Proof.
  intros (c & -> & H). exists c. split; [reflexivity|].
  cbn [xorb] in H. revert H. apply class_mem_visible. range_items.
Qed.

Lemma email_host_chars w :
  lang fl_im (Cls false [AZ; d09; CChar (ch "."); CChar (ch "-")]) w ->
  exists c, w = [c] /\ visible c.
Proof.
  intros (c & -> & H). exists c. split; [reflexivity|].
  cbn [xorb] in H. revert H. apply class_mem_visible. range_items.
Qed.

Lemma email_tld_chars w :
  lang fl_im (Cls false [AZ]) w -> exists c, w = [c] /\ visible c.
Proof.
  intros (c & -> & H). exists c. split; [reflexivity|].
  cbn [xorb] in H. revert H. apply class_mem_visible. range_items.
Qed.

(** A word of the email pattern: user, "@", host with a dot, no white
    space. *)
Lemma lang_email m :
  lang fl_im email_re m ->
  (exists user domain,
      m = user ++ ch "@" :: domain /\ user <> []
      /\ In (ch ".") domain /\ 4 <= len domain)
  /\ Forall visible m.
Proof.
  unfold email_re. cbn [Seqs lang].
  intros (w1 & r1 & -> & H1 & w2 & r2 & -> & (c2 & -> & Hc2)
          & w3 & r3 & -> & H3 & w4 & r4 & -> & (c4 & -> & Hc4) & H5).
  apply canon_not_letter in Hc2; [|reflexivity|reflexivity].
  apply canon_not_letter in Hc4; [|reflexivity|reflexivity]. subst c2 c4.
  destruct (lang_Plus_chars visible _ _ _ email_user_chars H1) as (a & t & -> & Va & Vt).
  destruct (lang_Plus_chars visible _ _ _ email_host_chars H3) as (b & u & -> & Vb & Vu).
  destruct (lang_AtLeast_chars visible _ _ _ _ email_tld_chars H5) as [Hn Vr].
  split.
  - exists (a :: t), ((b :: u) ++ [ch "."] ++ r4). repeat split.
    + discriminate.
    + apply in_or_app. right. now left.
    + unfold len. rewrite !length_app. cbn [List.length]. lia.
  - repeat (apply Forall_app; split); try assumption; try (now constructor).
Qed.


Lemma digit_chars w :
  lang fl_m digit w -> exists c, w = [c] /\ is_digit c = true.
Proof.
  intros (c & -> & H). exists c. split; [reflexivity|].
  cbn in H. now rewrite orb_false_r in H.
Qed.

Lemma phone_body_chars w :
  lang fl_m (Cls false [CDigit; CSpace; CChar (ch "-"); CChar (ch "(");
                        CChar (ch ")"); CChar (ch ".")]) w ->
  exists c, w = [c] /\ phone_char c = true.
Proof.
  intros (c & -> & H). exists c. split; [reflexivity|].
  cbn [xorb class_mem fl_m ignoreCase existsb citem_mem] in H.
  unfold phone_char. cbn [existsb].
  rewrite !orb_true_iff in *. rewrite !N.eqb_eq in *. intuition.
Qed.

(** A word of the phone pattern. *)
Lemma lang_phone m :
  lang fl_m phone_re m ->
  9 <= len m /\ Forall (fun c => phone_char c = true) m
  /\ last_is is_digit m = true.
Proof.
  unfold phone_re. cbn [Seqs].
  intros (w0 & r0 & -> & H0 & w1 & r1 & -> & H1 & w2 & r2 & -> & H2 & H3).
  destruct (digit_chars _ H1) as (d1 & -> & D1).
  destruct (digit_chars _ H3) as (d2 & -> & D2).
  destruct (lang_AtLeast_chars (fun c => phone_char c = true) _ _ _ _
                               phone_body_chars H2) as [Hn Hb].
  assert (P0 : Forall (fun c => phone_char c = true) w0).
  { destruct H0 as [(c & -> & Hc)| -> ]; [|constructor].
    apply canon_not_letter in Hc; [|reflexivity|reflexivity]. subst c.
    repeat constructor. }
  assert (Pd : forall d, is_digit d = true -> phone_char d = true).
  { intros d Hd. unfold phone_char. now rewrite Hd. }
  repeat split.
  - unfold len. rewrite !length_app. cbn [List.length]. lia.
  - repeat (apply Forall_app; split); try assumption; repeat constructor; auto.
  - unfold last_is. rewrite !rev_app_distr. cbn [rev app]. exact D2.
Qed.

(** The tail of a link, [[^\s)]+]: not empty, no white space. *)
Lemma url_tail_chars f w :
  lang f (Cls true [CSpace; CChar (ch ")")]) w -> exists c, w = [c] /\ visible c.
Proof.
  intros (c & -> & H). exists c. split; [reflexivity|].
  apply negb_true_iff in H. unfold class_mem in H. unfold visible.
  destruct (ignoreCase f); cbn [existsb citem_mem] in H;
    destruct (is_space c); [discriminate|reflexivity|discriminate|reflexivity].
Qed.

Lemma lang_url_tail f w : lang f url_tail w -> w <> [] /\ Forall visible w.
Proof.
  intros H.
  destruct (lang_Plus_chars visible _ _ _ (url_tail_chars f) H) as (c & t & -> & V & Vt).
  split; [discriminate|now constructor].
Qed.

(** A link that starts with a literal and goes on with the tail. *)
Lemma lang_link f (head : list regex) w :
  (forall x, lang f (Seqs head) x -> Forall visible x) ->
  lang f (Seq (Seqs head) url_tail) w -> w <> [] /\ Forall visible w.
Proof.
  intros Hh (w1 & w2 & -> & H1 & H2).
  destruct (lang_url_tail _ _ H2) as [Hne Hv]. split.
  - destruct w1; [assumption|discriminate].
  - apply Forall_app. split; [now apply Hh|assumption].
Qed.

Lemma lang_http x :
  lang fl http_re x ->
  (exists t, x = lit "http://" ++ t \/ x = lit "https://" ++ t)
  /\ x <> [] /\ Forall visible x.
Proof.
  unfold http_re. cbn [Seqs].
  intros (w1 & r1 & -> & H1 & w2 & r2 & -> & H2 & w3 & r3 & -> & H3 & H4).
  apply lang_Str_exact in H1, H3. subst w1 w3.
  destruct (lang_url_tail _ _ H4) as [Hne Hv].
  assert (E2 : w2 = [ch "s"] \/ w2 = []).
  { destruct H2 as [(c & -> & Hc)| -> ]; [left|now right].
    cbn [canon fl ignoreCase] in Hc. now subst. }
  split; [|split].
  - exists r3. destruct E2 as [->| ->]; [right|left]; reflexivity.
  - discriminate.
  - destruct E2 as [->| ->]; repeat (apply Forall_app; split);
      try assumption; repeat constructor.
Qed.

Lemma lang_word_link f (w : string) x :
  forallb (fun a => negb (is_space a)) (lit w) = true ->
  lang f (Seqs [WordB; Word w; url_tail]) x -> x <> [] /\ Forall visible x.
Proof.
  intros Hw. cbn [Seqs].
  intros (w0 & r0 & -> & -> & w1 & r1 & -> & H1 & H2).
  destruct (lang_url_tail _ _ H2) as [Hne Hv]. cbn [app]. split.
  - destruct w1; [assumption|discriminate].
  - apply Forall_app. split; [|assumption].
    now apply (lang_Str_visible f (lit w)).
Qed.

(** Every link is a non-empty piece of the text without white space. *)
Lemma all_links_shape blob x :
  In x (all_links blob) -> substring x blob /\ x <> [] /\ Forall visible x.
Proof.
  unfold all_links. rewrite array_from_set_In, !in_app_iff.
  intros [H|[H|[H|[H|H]]]]; apply str_match_all_sound in H; destruct H as [Hs L];
    (split; [assumption|]).
  - now apply lang_http in L.
  - now apply lang_word_link in L.
  - now apply lang_word_link in L.
  - now apply lang_word_link in L.
  - now apply lang_word_link in L.
Qed.


(** *** cap *)

Lemma ink_app a b : ink (a ++ b) = ink a ++ ink b.
Proof. apply filter_app. Qed.

Lemma ink_spaces s : forallb is_space s = true -> ink s = [].
Proof.
  induction s as [|c s IH]; cbn [forallb ink filter]; [reflexivity|].
  intros H. apply andb_true_iff in H. destruct H as [-> Hs]. cbn [negb]. now apply IH.
Qed.

Lemma ink_nil_iff s : ink s = [] <-> forallb is_space s = true.
Proof.
  split; [|apply ink_spaces].
  induction s as [|c s IH]; cbn [forallb ink filter]; [reflexivity|].
  destruct (is_space c); cbn [negb andb]; [exact IH|discriminate].
Qed.

Lemma ink_trim s : ink (trim s) = ink s.
Proof.
  destruct (trim_middle s) as (pre & post & H & Hp & Hq).
  rewrite H at 2. rewrite !ink_app, (ink_spaces pre), (ink_spaces post) by assumption.
  now rewrite app_nil_r.
Qed.

Lemma to_upper_idempotent c : to_upper (to_upper c) = to_upper c.
Proof.
  destruct (to_upper_cases c) as [[E _]|[E H]]; rewrite E; [exact E|].
  unfold to_upper.
  assert (Hl : is_lower (c - 32) = false).
  { unfold is_lower. destruct (in_range 97 122 (c - 32)) eqn:R; [|reflexivity].
    apply in_range_spec in R. lia. }
  now rewrite Hl.
Qed.

Lemma ink_toUpperCase m : ink (toUpperCase m) = toUpperCase (ink m).
Proof.
  induction m as [|c m IH]; [reflexivity|].
  cbn [toUpperCase map ink filter]. rewrite is_space_to_upper.
  destruct (is_space c); cbn [negb]; [exact IH|].
  cbn [map]. f_equal. exact IH.
Qed.

Lemma spaces_chars w :
  lang fl space w -> exists c, w = [c] /\ is_space c = true.
Proof.
  intros (c & -> & H). exists c. split; [reflexivity|].
  cbn in H. now rewrite orb_false_r in H.
Qed.

Lemma lang_spaces m : lang fl spaces_re m -> forallb is_space m = true.
Proof.
  intros H.
  destruct (lang_Plus_chars (fun c => is_space c = true) _ _ _ spaces_chars H)
    as (c & t & -> & Hc & Ht).
  cbn [forallb]. rewrite Hc. apply forallb_forall. now apply Forall_forall.
Qed.

(** Collapsing white space keeps every other character. *)
Lemma ink_collapse s : ink (collapse s) = ink s.
Proof.
  unfold collapse. apply (replace_all_hom ink); [apply ink_app|].
  intros m L. rewrite (ink_spaces m) by now apply lang_spaces. reflexivity.
Qed.

Lemma upper_hom (H : str -> str) f r s :
  (forall a b, H (a ++ b) = H a ++ H b) ->
  (forall m, H (toUpperCase m) = H m) ->
  H (replace_all f r toUpperCase s) = H s.
Proof. intros Happ Hup. apply (replace_all_hom H); auto. Qed.

(** [cap] changes the case of characters and nothing else in the trimmed,
    collapsed string. *)
Lemma cap_upper s : toUpperCase (cap s) = toUpperCase (trim (collapse s)).
Proof.
  unfold cap. fold (collapse s). apply (upper_hom toUpperCase).
  - intros a b. apply map_app.
  - intros m. unfold toUpperCase. rewrite map_map. apply map_ext, to_upper_idempotent.
Qed.

Lemma cap_spaces s : map is_space (cap s) = map is_space (trim (collapse s)).
Proof.
  unfold cap. fold (collapse s).
  apply (replace_all_hom (map is_space)).
  - intros a b. apply map_app.
  - intros m _. unfold toUpperCase. rewrite map_map. apply map_ext, is_space_to_upper.
Qed.

Lemma cap_len s : len (cap s) = len (trim (collapse s)).
Proof.
  unfold len. rewrite <- (length_map is_space (cap s)), cap_spaces. apply length_map.
Qed.

Lemma cap_ink s : toUpperCase (ink (cap s)) = toUpperCase (ink s).
Proof.
  rewrite <- !ink_toUpperCase, cap_upper, !ink_toUpperCase, ink_trim, ink_collapse.
  reflexivity.
Qed.

Lemma cap_nil_iff s : cap s = [] <-> forallb is_space s = true.
Proof.
  rewrite <- ink_nil_iff, <- ink_collapse, ink_nil_iff, <- trim_nil_iff.
  pose proof (cap_len s) as H. unfold len in H.
  split; intros E.
  - rewrite E in H. destruct (trim (collapse s)); [reflexivity|discriminate].
  - rewrite E in H. destruct (cap s); [reflexivity|discriminate].
Qed.

Lemma tidy_not_spaces t : tidy t -> forallb is_space t = false.
Proof.
  intros (Hne & Hh & _). destruct t as [|c t]; [congruence|].
  cbn [forallb]. now rewrite Hh.
Qed.

Lemma map_head_last {A B} (g : A -> B) (P : B -> Prop) (l1 l2 : list A) :
  map g l1 = map g l2 ->
  match l2 with [] => True | c :: _ => P (g c) end ->
  match l1 with [] => True | c :: _ => P (g c) end.
Proof.
  destruct l1 as [|a l1], l2 as [|b l2]; cbn [map]; try easy.
  intros [= E _]. now rewrite E.
Qed.

(** The capitalized form of a token is a token. *)
Lemma cap_tidy t : tidy t -> tidy (cap t).
Proof.
  intros Ht. pose proof (cap_spaces t) as Hs. repeat split.
  - intros E. apply cap_nil_iff in E. rewrite tidy_not_spaces in E by assumption.
    discriminate.
  - apply (map_head_last is_space (fun b => b = false) _ _ Hs), trim_head.
  - apply (f_equal (@rev bool)) in Hs. rewrite <- !map_rev in Hs.
    apply (map_head_last is_space (fun b => b = false) _ _ Hs), trim_last.
Qed.

Lemma trimmed_tidy u : trim u <> [] -> tidy (trim u).
Proof. intros H. repeat split; [assumption|apply trim_head|apply trim_last]. Qed.

Lemma filter_Boolean_trim_tidy l t :
  In t (filter_Boolean (map trim l)) -> tidy t.
Proof.
  unfold filter_Boolean. rewrite filter_In, in_map_iff.
  intros [(u & <- & _) Ht]. apply trimmed_tidy. now apply truthy_iff.
Qed.

Lemma split_items_tidy s t : In t (split_items s) -> tidy t.
Proof. apply filter_Boolean_trim_tidy. Qed.

Lemma extractSkills_tidy text : Forall tidy (extractSkills text).
Proof.
  unfold extractSkills. destruct (negb (truthy _)); [constructor|].
  apply Forall_forall. intros x Hx. apply array_from_set_In, in_map_iff in Hx.
  destruct Hx as (t & <- & Ht). apply cap_tidy.
  apply in_flat_map in Ht. destruct Ht as (r & _ & Ht).
  now apply split_items_tidy in Ht.
Qed.

Lemma project_step_tidy st l :
  Forall (fun e => Forall tidy (tech e)) (all_entries st) ->
  Forall (fun e => Forall tidy (tech e)) (all_entries (project_step st l)).
Proof.
  destruct st as [entries current]. intros H. unfold project_step.
  destruct (test fl_i projects_bare l); [assumption|].
  destruct (test fl marker_start l || test fl project_title_re l).
  { rewrite all_entries_push. apply Forall_app. split; [assumption|].
    repeat constructor. }
  apply Forall_all_entries in H. destruct H as [He Hc].
  assert (Hf : Forall tidy (tech (or_fresh current fresh_project))).
  { destruct current; [assumption|constructor]. }
  destruct (test fl_i tech_re l); [|destruct (test fl_i link_line_re l)];
    apply Forall_all_entries; (split; [assumption|]); cbn [tech];
    try assumption.
  apply Forall_forall. intros x Hx. apply array_from_set_In, in_app_iff in Hx.
  rewrite Forall_forall in Hf. destruct Hx as [Hx|Hx]; [now apply Hf|].
  apply in_map_iff in Hx. destruct Hx as (t & <- & Ht).
  apply cap_tidy. now apply split_items_tidy in Ht.
Qed.

Lemma extractProjects_tidy text :
  Forall (fun e => Forall tidy (tech e)) (extractProjects text).
Proof.
  unfold extractProjects. destruct (negb (truthy _)); [constructor|].
  unfold project_entries.
  pose proof (fold_left_invariant
                (fun st => Forall (fun e => Forall tidy (tech e)) (all_entries st))
                project_step (section_lines (fst (findSection text
                   (literal projects_header fl_i false))))
                project_step_tidy ([], None)) as H.
  destruct (fold_left project_step _ ([], None)) as [entries current].
  apply H. constructor.
Qed.


(** *** Sections that are not there *)

Lemma findSection_missing text p f g :
  findIndex (test f p) (split_chr LF text) = None ->
  fst (findSection text (literal p f g)) = [].
Proof.
  intros H. rewrite findSection_locate_fresh. unfold locateSection, section_range.
  now rewrite H.
Qed.

Lemma any_pos_exists (P : pos -> bool) prev s :
  any_pos P prev s = true ->
  exists pre prev' t, s = pre ++ t /\ P (prev', t) = true.
Proof.
  revert prev. induction s as [|c s IH]; intros prev; cbn [any_pos].
  - rewrite orb_false_r. intros H. now exists [], prev, [].
  - intros H. apply orb_true_iff in H. destruct H as [H|H].
    + now exists [], prev, (c :: s).
    + destruct (IH _ H) as (pre & prev' & t & -> & Hp).
      now exists (c :: pre), prev', t.
Qed.

Lemma eat_first f a w p q :
  eat f (a :: w) p = Some q -> exists c t, snd p = c :: t /\ canon f a = canon f c.
Proof.
  cbn [eat]. destruct (snd p) as [|c t]; [discriminate|].
  destruct (N.eqb_spec (canon f a) (canon f c)); [|discriminate].
  intros _. now exists c, t.
Qed.

(** A line that contains a word whose first character is not white space
    is not blank. *)
Lemma contains_any_ink ws l :
  Forall (fun w => exists a t, lit w = a :: t /\ is_space a = false) ws ->
  contains_any ws l = true -> ink l <> [].
Proof.
  intros Hws H. unfold contains_any in H.
  destruct (any_pos_exists _ _ _ H) as (pre & prev' & t & -> & Hp).
  apply existsb_exists in Hp. destruct Hp as (w & Hin & He).
  rewrite Forall_forall in Hws. destruct (Hws w Hin) as (a & u & Ew & Ha).
  rewrite Ew in He. destruct (eat fl_i (a :: u) (prev', t)) as [q|] eqn:E; [|discriminate].
  destruct (eat_first _ _ _ _ _ E) as (c & t' & Ht & Hc). cbn [snd] in Ht. subst t.
  rewrite ink_app. cbn [ink filter].
  rewrite <- (is_space_canon _ _ _ Hc), Ha. cbn [negb].
  intros E'. apply app_eq_nil in E'. destruct E' as [_ E']. discriminate.
Qed.

Lemma ink_join_head sep l rest : ink l <> [] -> ink (join sep (l :: rest)) <> [].
Proof.
  intros H. destruct rest as [|y rest].
  - exact H.
  - rewrite join_cons, ink_app. intros E. apply app_eq_nil in E. now destruct E.
Qed.

Lemma slice_head {A} (s e : nat) (l : list A) (d : A) :
  s < e <= List.length l -> exists rest, slice s e l = nth s l d :: rest.
Proof.
  intros H. unfold slice.
  assert (Hl : s < List.length (firstn e l)) by (rewrite length_firstn; lia).
  rewrite <- (firstn_skipn s (firstn e l)) in Hl.
  destruct (skipn s (firstn e l)) as [|x rest] eqn:E.
  - rewrite length_app, length_firstn, length_firstn in Hl. cbn [List.length] in Hl. lia.
  - exists rest. f_equal.
    assert (Hn : nth s (firstn e l) d = x).
    { rewrite <- (firstn_skipn s (firstn e l)), E.
      rewrite app_nth2; rewrite length_firstn, length_firstn; [|lia].
      replace (s - Nat.min s (Nat.min e (List.length l))) with 0 by lia. reflexivity. }
    rewrite <- Hn. clear -H. revert s e H.
    induction l as [|y l IH]; intros s e H; [cbn [List.length] in H; lia|].
    destruct e as [|e]; [lia|]. destruct s as [|s]; [reflexivity|].
    cbn [firstn nth]. apply IH. cbn [List.length] in H. lia.
Qed.

(** For a header pattern that is a list of words, findSection returns the
    empty string exactly when no line contains one of the words. *)
Lemma findSection_nil_iff text ws g :
  ws <> [] ->
  Forall (fun w => exists a t, lit w = a :: t /\ is_space a = false) ws ->
  fst (findSection text (literal (Alts (map Word ws)) fl_i g)) = []
  <-> forall l, In l (split_chr LF text) -> contains_any ws l = false.
Proof.
  intros Hne Hws.
  assert (Ht : forall l, test fl_i (Alts (map Word ws)) l = contains_any ws l).
  { intros l. now apply test_words. }
  split.
  - intros E l Hl. rewrite <- Ht.
    destruct (findIndex (test fl_i (Alts (map Word ws))) (split_chr LF text))
      as [k|] eqn:F; [|now apply (proj1 (findIndex_None _ _) F)].
    exfalso. rewrite findSection_locate_fresh in E.
    unfold locateSection in E.
    destruct (section_range _ _ (split_chr LF text)) as [[s e]|] eqn:R.
    + destruct (section_range_spec _ _ _ _ _ R) as (Hh & _ & Hse & _).
      destruct (slice_head s e (split_chr LF text) [] Hse) as (rest & Hsl).
      rewrite Hsl in E. apply trim_nil_iff, ink_nil_iff in E.
      revert E. apply ink_join_head. apply (contains_any_ink ws); [assumption|].
      now rewrite <- Ht.
    + unfold section_range in R. rewrite F in R. discriminate.
  - intros H. apply findSection_missing. apply findIndex_None.
    intros l Hl. rewrite Ht. now apply H.
Qed.

Ltac word_heads :=
  repeat (apply Forall_cons; [eexists _, _; split; [reflexivity|reflexivity]|]);
  apply Forall_nil.

Lemma any_pos_le (P Q : pos -> bool) prev s :
  (forall p, P p = true -> Q p = true) ->
  any_pos P prev s = true -> any_pos Q prev s = true.
Proof.
  intros H. revert prev. induction s as [|c s IH]; intros prev; cbn [any_pos].
  - rewrite !orb_false_r. apply H.
  - rewrite !orb_true_iff. intros [Hp|Hp]; [left; now apply H|right; now apply IH].
Qed.

Lemma eat_app f w1 w2 p :
  eat f (w1 ++ w2) p = match eat f w1 p with Some q => eat f w2 q | None => None end.
Proof.
  revert p. induction w1 as [|a w1 IH]; intros p; [reflexivity|].
  cbn [app eat]. destruct (snd p) as [|c s]; [reflexivity|].
  destruct (canon f a =? canon f c)%N; [apply IH|reflexivity].
Qed.


Lemma any_pos_orb (P Q : pos -> bool) prev s :
  any_pos (fun p => P p || Q p) prev s = any_pos P prev s || any_pos Q prev s.
Proof.
  revert prev. induction s as [|c s IH]; intros prev; cbn [any_pos].
  - now rewrite !orb_false_r.
  - rewrite IH. destruct (P _), (Q _), (any_pos P _ _), (any_pos Q _ _); reflexivity.
Qed.

Lemma contains_any_app ws1 ws2 l :
  contains_any (ws1 ++ ws2) l = contains_any ws1 l || contains_any ws2 l.
Proof.
  unfold contains_any. rewrite <- any_pos_orb. apply any_pos_ext.
  intros p. apply existsb_app.
Qed.

Lemma split_blob text l :
  In l (split_chr LF (blob_of text)) -> In l (lines_of text) \/ l = [].
Proof.
  unfold blob_of. destruct (lines_of text) as [|x ls] eqn:E.
  - cbn. intros [<-|[]]. now right.
  - rewrite split_join; [now left|discriminate|].
    pose proof (lines_of_all_normal text) as H. rewrite E in H.
    eapply Forall_impl; [|exact H]. now intros a (_ & Ha & _).
Qed.

Lemma blob_no_word text ws g :
  ws <> [] ->
  Forall (fun w => exists a t, lit w = a :: t /\ is_space a = false) ws ->
  (forall l, In l (lines_of text) -> contains_any ws l = false) ->
  fst (findSection (blob_of text) (literal (Alts (map Word ws)) fl_i g)) = [].
Proof.
  intros Hne Hws H. apply findSection_nil_iff; try assumption.
  intros l Hl. apply split_blob in Hl. destruct Hl as [Hl| ->]; [now apply H|].
  unfold contains_any. cbn [any_pos]. rewrite orb_false_r.
  apply not_true_iff_false. intros E. apply existsb_exists in E.
  destruct E as (w & Hin & He). rewrite Forall_forall in Hws.
  destruct (Hws w Hin) as (a & t & Ew & _). rewrite Ew in He. discriminate.
Qed.

(** *** Entries are never blank *)

Lemma fold_left_invariant_lines {S L} (I : S -> Prop) (P : L -> Prop)
      (step : S -> L -> S) (ls : list L) :
  (forall st l, P l -> I st -> I (step st l)) ->
  Forall P ls -> forall st, I st -> I (fold_left step ls st).
Proof.
  intros Hstep H. induction H as [|l ls Hl _ IH]; intros st Hst; [assumption|].
  cbn [fold_left]. apply IH. now apply Hstep.
Qed.

Lemma section_lines_nonempty s : Forall (fun l => l <> []) (section_lines s).
Proof.
  pose proof (lines_of_all_normal s) as H.
  eapply Forall_impl; [|exact H]. now intros l (Hl & _).
Qed.

Lemma or2_nil a : or2 a [] = a.
Proof. now destruct a. Qed.

Lemma app_nonempty_r {A} (a b : list A) : b <> [] -> a ++ b <> [].
Proof. intros H E. apply app_eq_nil in E. now destruct E. Qed.

(** While the lines are read, every education entry has some field
    filled. *)
Lemma education_step_filled st l :
  l <> [] ->
  Forall (fun e => degree e <> [] \/ institution e <> [] \/ period e <> []
                   \/ details e <> []) (all_entries st) ->
  Forall (fun e => degree e <> [] \/ institution e <> [] \/ period e <> []
                   \/ details e <> []) (all_entries (education_step st l)).
Proof.
  destruct st as [entries current]. intros Hl H. unfold education_step.
  destruct (test fl_i education_skip l); [assumption|].
  destruct (test fl_i degree_re l).
  { rewrite all_entries_push. apply Forall_app. split; [assumption|].
    constructor; [|constructor]. now left. }
  apply Forall_all_entries in H. destruct H as [He _].
  destruct (test fl_i institution_re l); [|destruct (test fl_i (years_re 5) l)];
    apply Forall_all_entries; (split; [assumption|]); cbn [degree institution period details].
  - right. left. destruct (truthy (institution _)); [|assumption].
    now apply app_nonempty_r, app_nonempty_r.
  - right. right. now left.
  - right. right. right. now apply app_nonempty_r.
Qed.

Lemma finish_education_filled e :
  degree e <> [] \/ institution e <> [] \/ period e <> [] \/ details e <> [] ->
  education_filled (finish_education e).
Proof.
  unfold education_filled, finish_education. cbn [degree institution period details].
  rewrite !or2_nil. unfold or2.
  destruct (degree e) as [|d ds]; cbn [truthy].
  - destruct (details e) as [|x xs].
    + intros [H|[H|[H|H]]]; try congruence; right; (split; [reflexivity|]);
        [now left|now right].
    + intros _. left. discriminate.
  - intros _. left. discriminate.
Qed.

Lemma extractEducation_filled text : Forall education_filled (extractEducation text).
Proof.
  unfold extractEducation.
  set (sec := fst (findSection text (literal education_header fl_i false))).
  destruct (negb (truthy sec)); [constructor|].
  pose proof (fold_left_invariant_lines _ _ education_step _ education_step_filled
                (section_lines_nonempty sec) ([], None) (Forall_nil _)) as H.
  destruct (fold_left education_step _ ([], None)) as [entries current].
  apply Forall_map. eapply Forall_impl; [|exact H].
  apply finish_education_filled.
Qed.

(** Every experience entry but the first was opened by a new-role line and
    has a role. *)
Lemma nth_In_truthy (parts : list str) i :
  i < List.length parts -> Forall (fun p => p <> []) parts -> nth i parts [] <> [].
Proof.
  intros Hi H. rewrite Forall_forall in H. apply H. now apply nth_In.
Qed.

Lemma filter_Boolean_nonempty (l : list str) : Forall (fun p => p <> []) (filter_Boolean l).
Proof.
  apply Forall_forall. intros x Hx. unfold filter_Boolean in Hx.
  apply filter_In in Hx. now apply truthy_iff.
Qed.

Lemma open_role_role l : l <> [] -> role (open_role l) <> [].
Proof.
  intros Hl. unfold open_role.
  set (parts := filter_Boolean (map trim (split_re fl_i parts_sep l))).
  pose proof (filter_Boolean_nonempty (map trim (split_re fl_i parts_sep l))) as Hp.
  fold parts in Hp.
  destruct (2 <=? List.length parts) eqn:E; [|assumption].
  apply Nat.leb_le in E.
  destruct (findIndex (test fl_i role_part_re) parts) as [i|] eqn:F; cbn [role].
  - destruct (findIndex_Some _ _ _ [] F) as (Hi & _). now apply nth_In_truthy.
  - apply nth_In_truthy; [lia|assumption].
Qed.

Lemma tl_app_nonempty {A} (l : list A) (x : A) :
  l <> [] -> tl (l ++ [x]) = tl l ++ [x].
Proof. destruct l; [congruence|reflexivity]. Qed.

Lemma experience_step_roles st l :
  l <> [] ->
  (snd st = None -> fst st = [])
  /\ Forall (fun e => role e <> []) (tl (all_entries st)) ->
  (snd (experience_step st l) = None -> fst (experience_step st l) = [])
  /\ Forall (fun e => role e <> []) (tl (all_entries (experience_step st l))).
Proof.
  destruct st as [entries current]. cbn [fst snd]. intros Hl [Hn H].
  unfold experience_step.
  destruct (test fl_i experience_bare l); [now split|].
  destruct (is_new_role l).
  { split; [discriminate|]. rewrite all_entries_push.
    destruct (all_entries (entries, current)) as [|e es]; [constructor|].
    cbn [app tl] in *. apply Forall_app. split; [assumption|].
    constructor; [|constructor]. now apply open_role_role. }
  assert (K : forall c', role c' = role (or_fresh current fresh_experience) ->
                         Forall (fun e => role e <> []) (tl (all_entries (entries, Some c')))).
  { intros c' Hr. unfold all_entries, push in *. cbn [fst snd] in *.
    destruct current as [c|].
    - destruct entries as [|e es]; [constructor|].
      cbn [app tl] in *. apply Forall_app in H. destruct H as [H1 H2].
      apply Forall_app. split; [assumption|]. inversion_clear H2.
      constructor; [|constructor]. cbn [or_fresh] in Hr. now rewrite Hr.
    - rewrite Hn by reflexivity. constructor. }
  destruct (test fl_i (years_re 12) l);
    [|destruct (test fl marker_start l || (len l <? 140))];
    (split; [discriminate|]); now apply K.
Qed.

Lemma extractExperience_roles text :
  Forall (fun e => role e <> []) (tl (extractExperience text)).
Proof.
  rewrite extractExperience_lines, experience_entries_all.
  apply (fold_left_invariant_lines
           (fun st => (snd st = None -> fst st = [])
                      /\ Forall (fun e => role e <> []) (tl (all_entries st)))
           (fun l => l <> []) experience_step (experience_lines text)).
  - intros st l. apply experience_step_roles.
  - apply section_lines_nonempty.
  - split; [reflexivity|constructor].
Qed.


(** *** guessNameFromText *)

Lemma replace_all_In f r fn s c :
  In c (replace_all f r fn s) ->
  In c s \/ exists m, lang f r m /\ In c (fn m).
Proof.
  unfold replace_all. destruct (scan (S (len s)) f r None s) as [ms tl] eqn:E.
  destruct (scan_sound _ _ _ _ _ _ _ E) as [Hs L]. subst s. clear E.
  induction L as [|[b x] ms Lx _ IH]; cbn [map concat fst snd app].
  - now left.
  - rewrite <- !app_assoc. intros H.
    apply in_app_or in H. destruct H as [H|H]; [left; apply in_or_app; now left|].
    apply in_app_or in H. destruct H as [H|H]; [right; now exists x|].
    destruct (IH H) as [H'|H']; [left|now right].
    apply in_or_app. right. apply in_or_app. now right.
Qed.

Lemma name_class_chars w :
  lang fl (Cls false [AZ; az; CChar (ch " "); CChar (ch "."); CChar (ch "'");
                      CChar (ch "-")]) w ->
  exists c, w = [c] /\ name_char c = true.
Proof.
  intros (c & -> & H). exists c. split; [reflexivity|].
  cbn [xorb class_mem fl ignoreCase existsb citem_mem AZ az] in H.
  unfold name_char, is_upper, is_lower. cbn [existsb]. eval_ch.
  rewrite !orb_true_iff in *. rewrite !N.eqb_eq in *. intuition.
Qed.

(** /^[A-Za-z .'-]+$/ accepts only strings of these characters. *)
Lemma test_name_shape l :
  test fl name_shape_re l = true -> forallb name_char l = true.
Proof.
  unfold test, name_shape_re. cbn [Seqs]. rewrite search_Bol by reflexivity.
  destruct (ends fl _ (None, l)) as [|q qs] eqn:E; [discriminate|]. intros _.
  assert (Hq : In q (ends fl (Seq (Plus (Cls false [AZ; az; CChar (ch " ");
                CChar (ch "."); CChar (ch "'"); CChar (ch "-")])) Eol) (None, l)))
    by (rewrite E; now left).
  cbn [ends] in Hq. apply in_flat_map in Hq. destruct Hq as (q1 & H1 & H2).
  apply in_flat_map in H1. destruct H1 as (q0 & H0 & H1).
  assert (Hs : In q1 (ends fl (Plus (Cls false [AZ; az; CChar (ch " ");
                CChar (ch "."); CChar (ch "'"); CChar (ch "-")])) (None, l))).
  { cbn [Plus ends]. apply in_flat_map. now exists q0. }
  apply ends_sound in Hs. destruct Hs as (w & Hw & L). cbn [snd] in Hw.
  assert (Hend : snd q1 = []).
  { unfold guard in H2. destruct (snd q1) as [|c t]; [reflexivity|].
    cbn [multiline fl andb] in H2. destruct H2. }
  rewrite Hend, app_nil_r in Hw. subst w.
  destruct (lang_Plus_chars (fun c => name_char c = true) _ _ _ name_class_chars L)
    as (c & t & -> & Hc & Ht).
  cbn [forallb]. rewrite Hc. apply forallb_forall. now apply Forall_forall.
Qed.

Lemma lang_spaces2 m : lang fl spaces2_re m -> forallb is_space m = true.
Proof.
  intros H.
  destruct (lang_AtLeast_chars (fun c => is_space c = true) _ _ _ _ spaces_chars H)
    as [_ Hf].
  apply forallb_forall. now apply Forall_forall.
Qed.

(** A guessed name is empty or one of the first five lines, with runs of
    white space collapsed, and has only letters, spaces, periods,
    apostrophes and hyphens. *)
Lemma guess_loop_spec ls :
  guess_loop ls = []
  \/ exists l, In l ls
       /\ guess_loop ls = trim (replace_all fl spaces2_re (fun _ => [SP]) l)
       /\ forallb name_char l = true
       /\ List.length (split_chr SP l) <= 6
       /\ test fl_i name_skip_re l = false.
Proof.
  induction ls as [|l ls IH]; [now left|]. cbn [guess_loop].
  assert (IH' : guess_loop ls = []
                \/ exists l', In l' (l :: ls)
                     /\ guess_loop ls = trim (replace_all fl spaces2_re (fun _ => [SP]) l')
                     /\ forallb name_char l' = true
                     /\ List.length (split_chr SP l') <= 6
                     /\ test fl_i name_skip_re l' = false).
  { destruct IH as [IH|(l' & H1 & H2)]; [now left|right].
    exists l'. split; [now right|assumption]. }
  destruct (negb (truthy l)); [exact IH'|].
  destruct (test fl_i name_skip_re l) eqn:Hskip; [exact IH'|].
  destruct (List.length (split_chr SP l) <=? 6) eqn:Hw; cbn [andb]; [|exact IH'].
  destruct (test fl name_shape_re l) eqn:Hshape; [|exact IH'].
  right. exists l. split; [now left|]. split; [reflexivity|].
  split; [now apply test_name_shape|]. split; [now apply Nat.leb_le|exact Hskip].
Qed.

Lemma name_char_SP : name_char SP = true.
Proof. reflexivity. Qed.

Lemma guessNameFromText_chars lines :
  forallb name_char (guessNameFromText lines) = true.
Proof.
  unfold guessNameFromText.
  destruct (guess_loop_spec (firstn (Nat.min 5 (List.length lines)) lines))
    as [->|(l & _ & -> & Hc & _)]; [reflexivity|].
  apply forallb_forall. intros c Hin. apply trim_In, replace_all_In in Hin.
  destruct Hin as [Hin|(m & _ & [<-|[]])]; [|apply name_char_SP].
  rewrite forallb_forall in Hc. now apply Hc.
Qed.


(** *** normalizeLink *)

Lemma test_Bol f r l :
  multiline f = false -> test f (Seq Bol r) l = nonempty (ends f r (None, l)).
Proof.
  intros Hm. unfold test. rewrite search_Bol by assumption.
  now destruct (ends f r (None, l)).
Qed.

Lemma ends_Seq_Str f w r p :
  ends f (Seq (Str w) r) p
  = match eat f w p with Some q => ends f r q | None => [] end.
Proof.
  cbn [ends]. rewrite ends_Str. destruct (eat f w p); [|reflexivity].
  cbn [flat_map]. apply app_nil_r.
Qed.

Lemma nonempty_Opt_Chr f a w q :
  nonempty (ends f (Seq (Opt (Chr a)) (Str w)) q)
  = is_some (eat f (a :: w) q) || is_some (eat f w q).
Proof.
  cbn [ends Opt]. rewrite flat_map_app, nonempty_app. cbn [flat_map eat].
  rewrite app_nil_r, !ends_Str. f_equal.
  - unfold one. destruct (snd q) as [|c t]; [reflexivity|].
    destruct (canon f a =? canon f c)%N; [|reflexivity].
    cbn [flat_map]. rewrite app_nil_r, ends_Str.
    now destruct (eat f w (Some c, t)).
  - now destruct (eat f w q).
Qed.

(** /^https?:\/\//i accepts the strings that start with a scheme. *)
Lemma test_scheme l : test fl_i scheme_re l = starts_with_any schemes l.
Proof.
  unfold scheme_re, starts_with_any, schemes. cbn [Seqs existsb].
  rewrite test_Bol by reflexivity. unfold Word at 1. rewrite ends_Seq_Str.
  change (lit "http://") with (lit "http" ++ lit "://").
  change (lit "https://") with (lit "http" ++ ch "s" :: lit "://").
  rewrite !eat_app.
  destruct (eat fl_i (lit "http") (None, l)) as [q|]; [|reflexivity].
  unfold Word. rewrite nonempty_Opt_Chr, orb_false_r. apply orb_comm.
Qed.

Lemma eat_prefix f w prev t : is_some (eat f w (prev, w ++ t)) = true.
Proof.
  revert prev. induction w as [|a w IH]; intros prev; [reflexivity|].
  cbn [app eat snd]. rewrite N.eqb_refl. apply IH.
Qed.

Lemma starts_with_scheme_https l : starts_with_any schemes (lit "https://" ++ l) = true.
Proof.
  apply existsb_exists. exists "https://"%string.
  split; [right; now left|apply eat_prefix].
Qed.

Lemma normalizeLink_cases l :
  (starts_with_any schemes l = true /\ normalizeLink l = l)
  \/ (starts_with_any schemes l = false /\ normalizeLink l = lit "https://" ++ l).
Proof.
  unfold normalizeLink. rewrite test_scheme.
  destruct (starts_with_any schemes l); [left|right]; now split.
Qed.

Lemma normalizeLink_scheme l : starts_with_any schemes (normalizeLink l) = true.
Proof.
  destruct (normalizeLink_cases l) as [[H ->]|[_ ->]]; [assumption|].
  apply starts_with_scheme_https.
Qed.

Lemma normalizeLink_fixed l : starts_with_any schemes l = true -> normalizeLink l = l.
Proof.
  intros H. destruct (normalizeLink_cases l) as [[_ E]|[E _]]; [assumption|congruence].
Qed.

Lemma starts_with_scheme_http t : starts_with_any schemes (lit "http://" ++ t) = true.
Proof.
  apply existsb_exists. exists "http://"%string.
  split; [now left|apply eat_prefix].
Qed.

(** *** The summary *)

Lemma join_no_sep c sep ls :
  c <> sep -> Forall (fun l => ~ In c l) ls -> ~ In c (join [sep] ls).
Proof.
  intros Hc H. induction H as [|x ls Hx _ IH]; [intros []|].
  destruct ls as [|y ls]; [exact Hx|].
  rewrite join_cons. intros Hin. apply in_app_or in Hin.
  destruct Hin as [Hin|[Hin|Hin]]; [now apply Hx|congruence|now apply IH].
Qed.

Lemma slice_In {A} i j (l : list A) x : In x (slice i j l) -> In x l.
Proof.
  unfold slice. intros H.
  rewrite <- (firstn_skipn j l). apply in_or_app. left.
  rewrite <- (firstn_skipn i (firstn j l)). apply in_or_app. now right.
Qed.

Lemma extractSummary_one_line text name_ : ~ In LF (extractSummary text name_).
Proof.
  unfold extractSummary. destruct (truthy _).
  - apply join_no_sep; [discriminate|]. apply Forall_forall. intros x Hx.
    apply slice_In in Hx. now apply split_chr_no_sep in Hx.
  - rewrite or2_nil. apply join_no_sep; [discriminate|].
    apply Forall_forall. intros x Hx. apply slice_In in Hx.
    apply filter_In in Hx. destruct Hx as [Hx _]. apply slice_In in Hx.
    pose proof (lines_of_all_normal text) as Hn. rewrite Forall_forall in Hn.
    now destruct (Hn x Hx) as (_ & H & _).
Qed.

(** *** The pages of a document *)

Lemma read_pages_lines pdf count pageNum fullText :
  (forall n, pageNum <= n < pageNum + count -> getPage pdf n <> None) ->
  exists text,
    read_pages pdf pageNum count fullText = Resolved text
    /\ lines_of text
       = lines_of fullText
         ++ flat_map (fun n => flat_map lines_of (page_items pdf n))
                     (seq pageNum count).
Proof.
  revert pageNum fullText. induction count as [|k IH]; intros pageNum fullText H.
  - exists fullText. cbn [read_pages seq flat_map]. now rewrite app_nil_r.
  - cbn [read_pages seq flat_map]. unfold page_items at 1.
    destruct (getPage pdf pageNum) as [items|] eqn:E;
      [|exfalso; apply (H pageNum); [lia|assumption]].
    destruct (IH (S pageNum) (fullText ++ [LF] ++ join [LF] items)) as (text & Ht & Hl).
    { intros n Hn. apply H. lia. }
    exists text. split; [assumption|].
    rewrite Hl. cbn [app]. rewrite lines_of_app, lines_of_join, <- app_assoc.
    reflexivity.
Qed.


(** *** One entry for every opening line *)

Section Cursor.
Variables (E K : Type).
Variable step : list E * option E -> str -> list E * option E.
Variables (skip opens : str -> bool).
Variable mk : str -> E.
Variable fresh : E.
Variable key : E -> K.

Hypothesis step_skip : forall st l, skip l = true -> step st l = st.
Hypothesis step_open :
  forall es cur l, skip l = false -> opens l = true ->
    step (es, cur) l = (push es cur, Some (mk l)).
Hypothesis step_update :
  forall es cur l, skip l = false -> opens l = false ->
    exists c, step (es, cur) l = (es, Some c) /\ key c = key (or_fresh cur fresh).

Lemma cursor_open_state es c ls :
  map key (all_entries (fold_left step ls (es, Some c)))
  = map key (all_entries (es, Some c))
    ++ map (fun l => key (mk l)) (filter opens (effective skip ls)).
Proof.
  revert es c. induction ls as [|l ls IH]; intros es c; cbn [fold_left effective filter].
  - cbn [map]. now rewrite app_nil_r.
  - destruct (skip l) eqn:Hs; cbn [negb].
    + rewrite step_skip by assumption. apply IH.
    + cbn [filter]. destruct (opens l) eqn:Ho.
      * rewrite step_open by assumption. cbn [push map].
        fold (effective skip ls). rewrite IH.
        unfold all_entries, push. cbn [fst snd]. rewrite !map_app. cbn [map].
        now rewrite <- !app_assoc.
      * destruct (step_update es (Some c) l Hs Ho) as (c' & -> & Hk).
        fold (effective skip ls). rewrite IH. f_equal.
        unfold all_entries, push. cbn [fst snd or_fresh] in *.
        rewrite !map_app. cbn [map]. now rewrite Hk.
Qed.

Lemma cursor_entries ls :
  map key (all_entries (fold_left step ls ([], None)))
  = (if starts_unopened opens (effective skip ls) then [key fresh] else [])
    ++ map (fun l => key (mk l)) (filter opens (effective skip ls)).
Proof.
  induction ls as [|l ls IH]; [reflexivity|]. cbn [fold_left effective filter].
  destruct (skip l) eqn:Hs; cbn [negb].
  - rewrite step_skip by assumption. exact IH.
  - cbn [starts_unopened filter]. fold (effective skip ls). destruct (opens l) eqn:Ho.
    + rewrite step_open by assumption. cbn [push negb app map]. apply cursor_open_state.
    + destruct (step_update [] None l Hs Ho) as (c' & -> & Hk).
      rewrite cursor_open_state. cbn [negb]. f_equal.
      unfold all_entries, push. cbn [fst snd app map or_fresh] in *. now rewrite Hk.
Qed.

End Cursor.

Lemma education_degrees_raw lines :
  map degree (all_entries (fold_left education_step lines ([], None)))
  = (if starts_unopened (test fl_i degree_re) (effective (test fl_i education_skip) lines)
     then [[]] else [])
    ++ filter (test fl_i degree_re) (effective (test fl_i education_skip) lines).
Proof.
  rewrite (cursor_entries EducationEntry str education_step
             (test fl_i education_skip) (test fl_i degree_re)
             (fun l => MkEducation l [] [] []) fresh_education degree).
  - cbn [degree fresh_education]. now rewrite map_id.
  - intros [es cur] l H. unfold education_step. now rewrite H.
  - intros es cur l Hs Ho. unfold education_step. now rewrite Hs, Ho.
  - intros es cur l Hs Ho. unfold education_step. rewrite Hs, Ho.
    destruct (test fl_i institution_re l); [|destruct (test fl_i (years_re 5) l)];
      eexists; split; reflexivity.
Qed.

Lemma experience_keys lines :
  map (fun e => (role e, company e)) (experience_entries lines)
  = (if starts_unopened is_new_role (effective (test fl_i experience_bare) lines)
     then [([], [])] else [])
    ++ map (fun l => (role (open_role l), company (open_role l)))
           (filter is_new_role (effective (test fl_i experience_bare) lines)).
Proof.
  rewrite experience_entries_all.
  rewrite (cursor_entries ExperienceEntry (str * str) experience_step
             (test fl_i experience_bare) is_new_role open_role fresh_experience
             (fun e => (role e, company e))); [reflexivity| | |].
  - intros [es cur] l H. unfold experience_step. now rewrite H.
  - intros es cur l Hs Ho. unfold experience_step. now rewrite Hs, Ho.
  - intros es cur l Hs Ho. unfold experience_step. rewrite Hs, Ho.
    destruct (test fl_i (years_re 12) l);
      [|destruct (test fl marker_start l || (len l <? 140))];
      eexists; split; reflexivity.
Qed.

Lemma project_names lines :
  map p_name (project_entries lines)
  = (if starts_unopened opens_project (effective (test fl_i projects_bare) lines)
     then [[]] else [])
    ++ map strip_marker (filter opens_project (effective (test fl_i projects_bare) lines)).
Proof.
  unfold project_entries.
  pose proof (cursor_entries ProjectEntry str project_step
                (test fl_i projects_bare) opens_project
                (fun l => MkProject (strip_marker l) [] [] []) fresh_project p_name)
    as H.
  destruct (fold_left project_step lines ([], None)) as [es cur] eqn:E.
  change (push es cur) with (all_entries (es, cur)). rewrite <- E.
  apply H; clear H E.
  - intros [es' cur'] l H. unfold project_step. now rewrite H.
  - intros es' cur' l Hs Ho. unfold project_step, opens_project in *. now rewrite Hs, Ho.
  - intros es' cur' l Hs Ho. unfold project_step, opens_project in *. rewrite Hs, Ho.
    destruct (test fl_i tech_re l); [|destruct (test fl_i link_line_re l)];
      eexists; split; reflexivity.
Qed.


Lemma effective_nonempty skip lines :
  Forall (fun l : str => l <> []) lines ->
  Forall (fun l : str => l <> []) (effective skip lines).
Proof.
  intros H. apply Forall_forall. intros l Hl. apply filter_In in Hl.
  rewrite Forall_forall in H. now apply H.
Qed.

Lemma finish_degree e : degree e <> [] -> degree (finish_education e) = degree e.
Proof.
  unfold finish_education, or2. cbn [degree]. destruct (degree e); [congruence|reflexivity].
Qed.

Lemma finished_degrees es ds :
  Forall (fun d : str => d <> []) ds ->
  map degree es = ds -> map degree (map finish_education es) = ds.
Proof.
  intros H. revert es. induction H as [|d ds Hd _ IH]; intros es E.
  - destruct es; [reflexivity|discriminate].
  - destruct es as [|e es]; [discriminate|]. cbn [map] in *.
    injection E as E1 E2. rewrite finish_degree by congruence.
    now rewrite E1, IH.
Qed.

Lemma extractEducation_lines text :
  extractEducation text
  = map finish_education
        (all_entries (fold_left education_step (education_lines text) ([], None))).
Proof.
  unfold extractEducation, education_lines.
  destruct (fst (findSection text (literal education_header fl_i false))); [reflexivity|].
  cbn [truthy negb]. unfold all_entries.
  now destruct (fold_left education_step _ ([], None)).
Qed.

Lemma extractProjects_lines text :
  extractProjects text = project_entries (projects_lines text).
Proof.
  unfold extractProjects, projects_lines.
  destruct (fst (findSection text (literal projects_header fl_i false))); reflexivity.
Qed.

(** *** A section is a piece of the text *)

Lemma join_app sep (a b : list str) :
  a <> [] -> b <> [] -> join sep (a ++ b) = join sep a ++ sep ++ join sep b.
Proof.
  intros Ha Hb. induction a as [|x a IH]; [congruence|].
  destruct a as [|y a].
  - destruct b as [|z b]; [congruence|]. reflexivity.
  - cbn [app] in *. rewrite !join_cons, IH by discriminate.
    now rewrite <- !app_assoc.
Qed.

Lemma substring_refl s : substring s s.
Proof. exists [], []. now rewrite app_nil_r. Qed.

Lemma substring_nil s : substring [] s.
Proof. now exists [], s. Qed.

Lemma substring_trans a b c : substring a b -> substring b c -> substring a c.
Proof.
  intros (p1 & q1 & ->) (p2 & q2 & ->). exists (p2 ++ p1), (q1 ++ q2).
  now rewrite <- !app_assoc.
Qed.

Lemma substring_app_l a pre b : substring a b -> substring a (pre ++ b).
Proof. intros (p & q & ->). exists (pre ++ p), q. now rewrite <- app_assoc. Qed.

Lemma substring_app_r a b post : substring a b -> substring a (b ++ post).
Proof. intros (p & q & ->). exists p, (q ++ post). now rewrite <- !app_assoc. Qed.

Lemma substring_join_tail sep (mid q : list str) :
  substring (join sep mid) (join sep (mid ++ q)).
Proof.
  destruct mid as [|m mid]; [apply substring_nil|].
  destruct q as [|z q]; [rewrite app_nil_r; apply substring_refl|].
  rewrite join_app by discriminate. apply substring_app_r, substring_refl.
Qed.

Lemma substring_join_mid sep (p mid q : list str) :
  substring (join sep mid) (join sep (p ++ mid ++ q)).
Proof.
  destruct mid as [|m mid]; [apply substring_nil|].
  destruct p as [|x p]; [apply (substring_join_tail sep (m :: mid) q)|].
  rewrite join_app by discriminate.
  apply substring_app_l, substring_app_l, (substring_join_tail sep (m :: mid) q).
Qed.

Lemma slice_split {A} s e (l : list A) :
  l = firstn s (firstn e l) ++ slice s e l ++ skipn e l.
Proof.
  unfold slice. rewrite app_assoc, firstn_skipn. symmetry. apply firstn_skipn.
Qed.

Lemma trim_substring s : substring (trim s) s.
Proof. destruct (trim_middle s) as (pre & post & H & _). now exists pre, post. Qed.

Lemma findSection_substring text p f g :
  substring (fst (findSection text (literal p f g))) text.
Proof.
  rewrite findSection_locate_fresh. unfold locateSection.
  destruct (section_range _ _ (split_chr LF text)) as [[s e]|]; [|apply substring_nil].
  eapply substring_trans; [apply trim_substring|].
  rewrite <- (join_split LF text) at 2.
  rewrite (slice_split s e (split_chr LF text)) at 2.
  apply substring_join_mid.
Qed.

(** *** The location *)

Lemma upper_class_chars f w :
  ignoreCase f = false ->
  lang f (Cls false [AZ]) w -> exists c, w = [c] /\ is_upper c = true.
Proof.
  intros Hf (c & -> & H). exists c. split; [reflexivity|].
  unfold class_mem in H. rewrite Hf in H. cbn [xorb existsb citem_mem AZ] in H.
  rewrite orb_false_r in H. exact H.
Qed.

Lemma lang_location m :
  lang fl location_re m ->
  (exists c t, m = c :: t /\ is_upper c = true) /\ In (ch ",") m.
Proof.
  unfold location_re. cbn [Seqs].
  intros (w0 & r0 & -> & H0 & w1 & r1 & -> & H1 & w2 & r2 & -> & H2
          & w3 & r3 & -> & H3 & H4).
  cbn [lang] in H0. subst w0. cbn [app].
  destruct (upper_class_chars fl _ eq_refl H1) as (c & -> & Hc).
  split; [exists c, (w2 ++ w3 ++ r3); split; [reflexivity|exact Hc]|].
  destruct H3 as (x & y & -> & Hx & _).
  destruct Hx as (k & z & -> & (c' & -> & Hk) & _).
  cbn [canon fl ignoreCase] in Hk. subst c'.
  cbn [app]. right. apply in_or_app. right. now left.
Qed.

(* ------------------------------------------------------------------ *)
(** *** Further properties of the code *)

(** X1. Parsing the normalized text again gives the same record: the
    lines and the blob of the blob are the lines and the blob. *)
Theorem reparse_normalized (text : str) :
  lines_of (blob_of text) = lines_of text
  /\ blob_of (blob_of text) = blob_of text
  /\ parseResumeText (blob_of text) = parseResumeText text.
Proof.
  split; [apply lines_of_blob|]. split; [apply blob_of_blob|].
  now rewrite !parseResumeText_Ok, record_of_blob.
Qed.

(** X2. Every line the parser works on is not empty, has no line feed and
    no white space at either end; unless there is none, splitting the blob
    at line feeds gives these lines back. *)
Theorem lines_normalized (text : str) :
  Forall normal_line (lines_of text)
  /\ (lines_of text <> [] -> split_chr LF (blob_of text) = lines_of text)
  /\ join [LF] (split_chr LF text) = text.
Proof.
  split; [apply lines_of_all_normal|]. split; [|apply join_split].
  intros Hne. unfold blob_of. apply split_join; [assumption|].
  eapply Forall_impl; [|apply lines_of_all_normal]. now intros a (_ & Ha & _).
Qed.

Lemma lines_normalized_witness :
  split_chr LF (blob_of scenario1) = lines_of scenario1.
Proof.
  apply (proj1 (proj2 (lines_normalized scenario1))). vm_compute. discriminate.
Defined.

(** X3. When no line contains a header word of the four list sections,
    skills, education, experience and projects are all empty. *)
Theorem missing_sections_empty (text : str) :
  (forall l, In l (lines_of text) -> contains_any list_section_words l = false) ->
  exists r, parseResumeText text = Ok r
    /\ skills r = [] /\ education r = [] /\ experience r = [] /\ projects r = [].
Proof.
  intros H. exists (record_of text). split; [apply parseResumeText_Ok|].
  assert (Hs : forall ws g, ws <> [] ->
             Forall (fun w => exists a t, lit w = a :: t /\ is_space a = false) ws ->
             incl ws list_section_words ->
             fst (findSection (blob_of text) (literal (Alts (map Word ws)) fl_i g)) = []).
  { intros ws g Hne Hw Hincl. apply blob_no_word; try assumption.
    intros l Hl. specialize (H l Hl). apply not_true_iff_false. intros E.
    apply not_true_iff_false in H. apply H. unfold contains_any in *.
    revert E. apply any_pos_le. intros p Hp. apply existsb_exists in Hp.
    destruct Hp as (w & Hin & Hw'). apply existsb_exists. exists w.
    split; [now apply Hincl|assumption]. }
  cbn [record_of skills education experience projects].
  unfold extractSkills, extractEducation, extractExperience, extractProjects.
  change skills_header with (Alts (map Word skills_words)).
  change education_header with (Alts (map Word education_words)).
  change experience_header with (Alts (map Word experience_words)).
  change projects_header with (Alts (map Word projects_words)).
  assert (I1 : incl skills_words list_section_words)
    by (intros w Hw; apply in_or_app; now left).
  assert (I2 : incl education_words list_section_words)
    by (intros w Hw; apply in_or_app; right; apply in_or_app; now left).
  assert (I3 : incl experience_words list_section_words)
    by (intros w Hw; apply in_or_app; right; apply in_or_app; right;
        apply in_or_app; now left).
  assert (I4 : incl projects_words list_section_words)
    by (intros w Hw; apply in_or_app; right; apply in_or_app; right;
        apply in_or_app; now right).
  rewrite (Hs skills_words), (Hs education_words), (Hs experience_words),
    (Hs projects_words); try assumption; try discriminate; try word_heads.
  repeat split.
Qed.

Lemma missing_sections_empty_witness :
  exists r, parseResumeText no_sections_text = Ok r
    /\ skills r = [] /\ education r = [] /\ experience r = [] /\ projects r = [].
Proof.
  apply (missing_sections_empty no_sections_text).
  intros l H. vm_compute in H. destruct H as [<-|[<-|[]]]; reflexivity.
Defined.


(** X4. For each of the five header patterns of the parser, findSection
    returns the empty string exactly when no line of the text contains one
    of the words of the pattern, whatever the case. *)
Theorem section_empty_iff_missing (text : str) (g : bool) :
  let no ws := forall l, In l (split_chr LF text) -> contains_any ws l = false in
  (fst (findSection text (literal skills_header fl_i g)) = [] <-> no skills_words)
  /\ (fst (findSection text (literal education_header fl_i g)) = []
      <-> no education_words)
  /\ (fst (findSection text (literal experience_header fl_i g)) = []
      <-> no experience_words)
  /\ (fst (findSection text (literal projects_header fl_i g)) = []
      <-> no projects_words)
  /\ (fst (findSection text (literal summary_header fl_i g)) = []
      <-> no summary_words).
Proof.
  intros no. unfold no.
  split; [|split; [|split; [|split]]].
  - apply (findSection_nil_iff text skills_words g); [discriminate|word_heads].
  - apply (findSection_nil_iff text education_words g); [discriminate|word_heads].
  - apply (findSection_nil_iff text experience_words g); [discriminate|word_heads].
  - apply (findSection_nil_iff text projects_words g); [discriminate|word_heads].
  - apply (findSection_nil_iff text summary_words g); [discriminate|word_heads].
Qed.

(** X5. No education entry is blank: it has a degree, or else it has no
    details and an institution or a period. *)
Theorem education_entries_filled (text : str) :
  Forall education_filled (extractEducation text).
Proof. apply extractEducation_filled. Qed.

(** X6. The degrees of the education entries are the lines of the section
    that match the degree pattern, in their order; only when the first line
    read does not match it, one more entry comes first. *)
Theorem education_degrees (text : str) :
  let eff := effective (test fl_i education_skip) (education_lines text) in
  exists first,
    map degree (extractEducation text)
    = (if starts_unopened (test fl_i degree_re) eff then [first] else [])
      ++ filter (test fl_i degree_re) eff.
Proof.
  intros eff. rewrite extractEducation_lines.
  pose proof (education_degrees_raw (education_lines text)) as H. fold eff in H.
  set (es := all_entries (fold_left education_step (education_lines text) ([], None))) in *.
  assert (Hne : Forall (fun d : str => d <> []) (filter (test fl_i degree_re) eff)).
  { apply Forall_forall. intros l Hl. apply filter_In in Hl. destruct Hl as [Hl _].
    pose proof (effective_nonempty (test fl_i education_skip) _
                  (section_lines_nonempty
                     (fst (findSection text (literal education_header fl_i false))))) as Hf.
    rewrite Forall_forall in Hf. now apply Hf. }
  destruct (starts_unopened (test fl_i degree_re) eff).
  - destruct es as [|e es]; [discriminate|]. cbn [map app] in *.
    injection H as _ H. exists (degree (finish_education e)). f_equal.
    now apply finished_degrees.
  - exists []. cbn [app] in *. now apply finished_degrees.
Qed.

(** X7. The roles and companies of the experience entries are those of the
    new-role lines of the section, in their order, each as the line gives
    them; only when the first line read is not a new-role line, one entry
    without role and company comes first.  Every other entry has a role. *)
Theorem experience_roles_companies (text : str) :
  let eff := effective (test fl_i experience_bare) (experience_lines text) in
  map (fun e => (role e, company e)) (extractExperience text)
  = (if starts_unopened is_new_role eff then [([], [])] else [])
    ++ map (fun l => (role (open_role l), company (open_role l)))
           (filter is_new_role eff)
  /\ Forall (fun e => role e <> []) (tl (extractExperience text)).
Proof.
  intros eff. split.
  - rewrite extractExperience_lines. apply experience_keys.
  - apply extractExperience_roles.
Qed.

(** X8. The names of the projects are the lines of the section that open a
    project, a leading mark removed, in their order; only when the first
    line read opens none, one entry without name comes first. *)
Theorem project_names_in_order (text : str) :
  let eff := effective (test fl_i projects_bare) (projects_lines text) in
  map p_name (extractProjects text)
  = (if starts_unopened opens_project eff then [[]] else [])
    ++ map strip_marker (filter opens_project eff).
Proof. intros eff. rewrite extractProjects_lines. apply project_names. Qed.

(** X9. The email of a record is empty or a piece of the normalized text
    of the form user@domain, the user not empty, the domain with a dot and
    at least four characters, and no white space anywhere. *)
Theorem email_shape (text : str) :
  exists r, parseResumeText text = Ok r
    /\ (email (contact r) = []
        \/ (substring (email (contact r)) (blob_of text)
            /\ (exists user domain,
                   email (contact r) = user ++ ch "@" :: domain /\ user <> []
                   /\ In (ch ".") domain /\ 4 <= len domain)
            /\ Forall visible (email (contact r)))).
Proof.
  exists (record_of text). split; [apply parseResumeText_Ok|].
  cbn [record_of contact email].
  destruct (str_match fl_im email_re (blob_of text)) as [m|] eqn:E; [right|now left].
  cbn [first_or_empty]. destruct (str_match_sound _ _ _ _ E) as [Hs L].
  destruct (lang_email _ L) as [Hshape Hv]. now repeat split.
Qed.

(** X10. The phone of a record is empty or a piece of the normalized text
    of at least nine characters, each a digit, white space or one of
    + - ( ) . , the last one a digit. *)
Theorem phone_shape (text : str) :
  exists r, parseResumeText text = Ok r
    /\ (phone (contact r) = []
        \/ (substring (phone (contact r)) (blob_of text)
            /\ 9 <= len (phone (contact r))
            /\ Forall (fun c => phone_char c = true) (phone (contact r))
            /\ last_is is_digit (phone (contact r)) = true)).
Proof.
  exists (record_of text). split; [apply parseResumeText_Ok|].
  cbn [record_of contact phone].
  destruct (str_match fl_m phone_re (blob_of text)) as [m|] eqn:E; [right|now left].
  cbn [first_or_empty]. destruct (str_match_sound _ _ _ _ E) as [Hs L].
  destruct (lang_phone _ L) as (H1 & H2 & H3). now repeat split.
Qed.

(** X11. Every link of a record is a piece of the normalized text, not
    empty and without white space. *)
Theorem links_shape (text : str) :
  exists r, parseResumeText text = Ok r
    /\ Forall (fun x => substring x (blob_of text) /\ x <> [] /\ Forall visible x)
              (links (contact r)).
Proof.
  exists (record_of text). split; [apply parseResumeText_Ok|].
  cbn [record_of contact links]. apply Forall_forall. intros x Hx.
  now apply all_links_shape.
Qed.

(** X12. cap keeps every character that is not white space, in order,
    changing its case at most; it only changes the case of the trimmed
    string with its white space collapsed; it returns the empty string
    exactly for a string of white space. *)
Theorem cap_keeps_characters (s : str) :
  toUpperCase (ink (cap s)) = toUpperCase (ink s)
  /\ toUpperCase (cap s) = toUpperCase (trim (collapse s))
  /\ len (cap s) = len (trim (collapse s))
  /\ (cap s = [] <-> forallb is_space s = true).
Proof.
  split; [apply cap_ink|]. split; [apply cap_upper|].
  split; [apply cap_len|apply cap_nil_iff].
Qed.

(** X13. No skill and no tech item is empty or has white space at either
    end. *)
Theorem tokens_tidy (text : str) :
  exists r, parseResumeText text = Ok r
    /\ Forall tidy (skills r)
    /\ Forall (fun p => Forall tidy (tech p)) (projects r).
Proof.
  exists (record_of text). split; [apply parseResumeText_Ok|].
  cbn [record_of skills projects]. split.
  - apply extractSkills_tidy.
  - apply extractProjects_tidy.
Qed.

(** X14. A guessed name is empty, or comes from one of the first five
    lines, one of at most six words that does not start with a header
    word, by collapsing runs of white space and trimming; it has only
    letters, spaces, periods, apostrophes and hyphens. *)
Theorem guessed_name (lines : list str) :
  forallb name_char (guessNameFromText lines) = true
  /\ (guessNameFromText lines = []
      \/ exists l, In l (firstn 5 lines)
           /\ guessNameFromText lines
              = trim (replace_all fl spaces2_re (fun _ => [SP]) l)
           /\ forallb name_char l = true
           /\ List.length (split_chr SP l) <= 6
           /\ test fl_i name_skip_re l = false).
Proof.
  split; [apply guessNameFromText_chars|].
  unfold guessNameFromText.
  destruct (guess_loop_spec (firstn (Nat.min 5 (List.length lines)) lines))
    as [H|(l & Hin & H)]; [now left|right].
  exists l. split; [|assumption].
  destruct (Nat.le_ge_cases 5 (List.length lines)) as [Hle|Hge].
  - now rewrite Nat.min_l in Hin by assumption.
  - rewrite Nat.min_r, firstn_all in Hin by assumption.
    now rewrite firstn_all2 by assumption.
Qed.

(** X15. normalizeLink returns a link that starts with http:// or
    https://, whatever the case; it changes nothing in a link that does,
    so applying it twice is applying it once; the links the parser finds
    with a scheme are left as they are. *)
Theorem normalizeLink_scheme_once :
  (forall l, starts_with_any schemes (normalizeLink l) = true)
  /\ (forall l, normalizeLink (normalizeLink l) = normalizeLink l)
  /\ (forall l, starts_with_any schemes l = false ->
                normalizeLink l = lit "https://" ++ l)
  /\ (forall blob x, In x (or_empty (str_match_all fl http_re blob)) ->
                     normalizeLink x = x).
Proof.
  split; [apply normalizeLink_scheme|]. split; [|split].
  - intros l. apply normalizeLink_fixed, normalizeLink_scheme.
  - intros l H. destruct (normalizeLink_cases l) as [[E _]|[_ E]]; [congruence|exact E].
  - intros blob x Hx. apply str_match_all_sound in Hx. destruct Hx as [_ L].
    apply lang_http in L. destruct L as [(t & [-> | ->]) _];
      apply normalizeLink_fixed;
      [apply starts_with_scheme_http|apply starts_with_scheme_https].
Qed.

Lemma normalizeLink_scheme_once_witness :
  normalizeLink (lit "github.com/jane") = lit "https://github.com/jane".
Proof.
  apply (proj1 (proj2 (proj2 normalizeLink_scheme_once))). reflexivity.
Defined.

(** X16. The summary is one line: it has no line feed. *)
Theorem summary_one_line (text : str) :
  exists r, parseResumeText text = Ok r /\ ~ In LF (summary r).
Proof.
  exists (record_of text). split; [apply parseResumeText_Ok|].
  cbn [record_of summary]. apply extractSummary_one_line.
Qed.



(** X18. The location of a record is empty or a piece of the normalized
    text that starts with an upper-case letter and has a comma. *)
Theorem location_shape (text : str) :
  exists r, parseResumeText text = Ok r
    /\ (location (contact r) = []
        \/ (substring (location (contact r)) (blob_of text)
            /\ (exists c t, location (contact r) = c :: t /\ is_upper c = true)
            /\ In (ch ",") (location (contact r)))).
Proof.
  exists (record_of text). split; [apply parseResumeText_Ok|].
  cbn [record_of contact location].
  destruct (str_match fl location_re (blob_of text)) as [m|] eqn:E; [right|now left].
  cbn [first_or_empty]. destruct (str_match_sound _ _ _ _ E) as [Hs L].
  destruct (lang_location _ L) as [H1 H2]. now repeat split.
Qed.

(** X19. What findSection returns is a piece of the text it is given,
    without white space at either end. *)
Theorem section_in_text (text : str) (p : regex) (f : flags) (g : bool) :
  let section := fst (findSection text (literal p f g)) in
  substring section text
  /\ match section with [] => True | c :: _ => is_space c = false end
  /\ match rev section with [] => True | c :: _ => is_space c = false end.
Proof.
  intros section. split; [apply findSection_substring|].
  unfold section. rewrite findSection_locate_fresh. unfold locateSection.
  destruct (section_range _ _ (split_chr LF text)) as [[s e]|]; [|now split].
  split; [apply trim_head|apply trim_last].
Qed.

End Extra.
